(** * Meteor Impact: the effects model and the ring-map view of [main.py]

    A shallow embedding of the physics helpers ([volume_sphere] ...
    [impact_effects]), the classification helpers ([classify_size],
    [guess_event_type]) and the [RingsView] widget (zoom, pan, [_nice_step],
    [redraw]) of [main.py].

    Conventions of the embedding.
    - A Python [float] is a real number ([R]); [math.pi] is [PI], [math.sin]
      is [sin], [math.floor] is [Zfloor].  Rounding is outside this model.
      Where binary64 leaves the reals altogether (a product that overflows
      to infinity, a power that raises [OverflowError] or underflows to
      0.0) the code is written a second time, in the modules [Underflow]
      and [Binary64] below; a statement that rests on the absence of these
      effects names the range of inputs ([in_range], magnitudes up to 1e30
      or 1e100, arguments from 1e-300 to 1e300) in which they are absent.
    - A Python [int] is a [Z].
    - A [dict] with string keys is a [gmap string R]; [d.get(k)] is
      [d !! k], [d.get(k, 0.0)] is [default 0 (d !! k)] and
      [out.update(d)] is [d ∪ out].
    - Operations that can raise, or that leave the floats, are written in
      the [result] monad: a division checks its divisor, [math.log10]
      checks its argument, [**] with a fractional exponent checks its base.
    - The two [while] loops of [redraw] take fuel; running out of fuel is
      the outcome [OutOfFuel], distinct from a Python exception. *)

From Stdlib Require Import Reals Lra Lia ZArith String List.
From Stdlib Require Floats.PrimFloat Numbers.Cyclic.Int63.Uint63.
From stdpp Require Import base option gmap strings.
Import ListNotations.

Open Scope R_scope.

(** ** Outcomes of a computation *)

Inductive PyError : Type :=
| ZeroDivisionError          (* division by zero, [0.0 ** negative] *)
| ValueError                 (* math domain error *)
| ComplexResult              (* a negative float raised to a fractional
                                power is a [complex], not a [float] *)
| OverflowError.             (* [float ** int] beyond the binary64 range *)

Inductive result (A : Type) : Type :=
| Ok (a : A)
| Raise (e : PyError)
| OutOfFuel.

Arguments Ok {A} a.
Arguments Raise {A} e.
Arguments OutOfFuel {A}.

#[export] Instance result_ret : MRet result := fun _ a => Ok a.

#[export] Instance result_bind : MBind result := fun _ _ k c =>
  match c with
  | Ok a => k a
  | Raise e => Raise e
  | OutOfFuel => OutOfFuel
  end.

#[export] Instance R_eq_dec : EqDecision R := Req_dec_T.
#[export] Instance R_lt_dec : RelDecision Rlt := Rlt_dec.
#[export] Instance R_le_dec : RelDecision Rle := Rle_dec.
#[export] Instance R_gt_dec : RelDecision Rgt := Rgt_dec.

(** [a / b] on floats. *)
Definition py_div (a b : R) : result R :=
  if decide (b = 0) then Raise ZeroDivisionError else Ok (a / b).

(** [math.log10]. *)
Definition log10 (x : R) : result R :=
  if decide (0 < x) then Ok (ln x / ln 10) else Raise ValueError.

(** [x ** y] on floats, for an exponent [y] that is not a whole number
    (the only such exponent in the program is [1/3]). *)
Definition float_pow (x y : R) : result R :=
  if decide (0 < x) then Ok (Rpower x y)
  else if decide (x = 0) then
    (if decide (y < 0) then Raise ZeroDivisionError
     else if decide (y = 0) then Ok 1 else Ok 0)
  else Raise ComplexResult.

(** [math.radians]. *)
Definition radians (deg : R) : R := deg * PI / 180.

(** [out.update(d)]: the entries of [d] win. *)
Definition dict_update (out d : gmap string R) : gmap string R := d ∪ out.

(** ** Physics / effects *)

(** Over the reals.  On floats [(d_m/2) ** 3] raises [OverflowError]
    beyond the binary64 range: [Binary64.volume_sphere]. *)
Definition volume_sphere (d_m : R) : R :=
  4 / 3 * PI * (d_m / 2) ^ 3.

Definition mass_from_diameter (d_m rho : R) : R :=
  rho * volume_sphere d_m.

(** Over the reals.  On floats [(v_km_s*1000.0) ** 2] raises
    [OverflowError] beyond the binary64 range:
    [Binary64.kinetic_energy_joules]. *)
Definition kinetic_energy_joules (m_kg v_km_s : R) : R :=
  0.5 * m_kg * (v_km_s * 1000.0) ^ 2.

Definition joules_to_megatons_tnt (E_j : R) : R :=
  E_j / 4.184e15.

(** The locals [theta] and [f] of [surface_yield_mt]. *)
Definition surface_yield_theta (angle_deg : R) : R :=
  Rmax 1.0 (Rmin 90.0 angle_deg).

Definition surface_yield_f (angle_deg : R) : R :=
  0.55 + 0.5 * sin (radians (surface_yield_theta angle_deg)).

Definition surface_yield_mt (kinetic_mt angle_deg : R) : R :=
  let f := surface_yield_f angle_deg in
  Rmax (kinetic_mt * Rmin f 1.0) 1e-9.

Definition scaled_radius_km (yield_mt k : R) : result R :=
  c ← float_pow (Rmax yield_mt 1e-12) (1 / 3);
  mret (k * c).

Definition blast_radii_km (yield_mt_surface : R) : result (gmap string R) :=
  severe ← scaled_radius_km yield_mt_surface 1.1;
  moderate ← scaled_radius_km yield_mt_surface 2.2;
  light ← scaled_radius_km yield_mt_surface 3.8;
  mret ({[ "severe_blast_km" := severe;
           "moderate_blast_km" := moderate;
           "light_blast_km" := light ]} : gmap string R).

Definition thermal_radii_km (yield_mt_surface : R) : result (gmap string R) :=
  severe ← scaled_radius_km yield_mt_surface 1.6;
  light ← scaled_radius_km yield_mt_surface 4.5;
  mret ({[ "severe_thermal_km" := severe;
           "light_thermal_km" := light ]} : gmap string R).

Definition impact_effects (yield_mt_kinetic angle_deg : R)
  : result (gmap string R) :=
  let Y := surface_yield_mt yield_mt_kinetic angle_deg in
  let out : gmap string R := {[ "effective_surface_yield_mt" := Y ]} in
  blast ← blast_radii_km Y;
  let out := dict_update out blast in
  thermal ← thermal_radii_km Y;
  let out := dict_update out thermal in
  mret out.

(** The chain of [MainWindow.on_calc] that turns the four body parameters
    into the effects mapping, with the intermediate values it reports. *)
Definition on_calc_mass (d rho : R) : R := mass_from_diameter d rho.

Definition on_calc_energy (d v rho : R) : R :=
  kinetic_energy_joules (on_calc_mass d rho) v.

Definition on_calc_mt (d v rho : R) : R :=
  joules_to_megatons_tnt (on_calc_energy d v rho).

Definition on_calc_effects (d v rho angle : R) : result (gmap string R) :=
  impact_effects (on_calc_mt d v rho) angle.

(** The five radius kinds and the constant each is scaled by. *)
Inductive radius_kind : Type :=
| SevereBlast | ModerateBlast | LightBlast | SevereThermal | LightThermal.

Definition radius_key (kind : radius_kind) : string :=
  match kind with
  | SevereBlast => "severe_blast_km"
  | ModerateBlast => "moderate_blast_km"
  | LightBlast => "light_blast_km"
  | SevereThermal => "severe_thermal_km"
  | LightThermal => "light_thermal_km"
  end.

Definition radius_k (kind : radius_kind) : R :=
  match kind with
  | SevereBlast => 1.1
  | ModerateBlast => 2.2
  | LightBlast => 3.8
  | SevereThermal => 1.6
  | LightThermal => 4.5
  end.

(** ** Mitigation helper logic *)

Definition classify_size (d_m : R) : string :=
  if decide (d_m < 10) then "<10m"
  else if decide (d_m < 50) then "10-50m"
  else if decide (d_m < 140) then "50-140m"
  else if decide (d_m < 300) then "140-300m"
  else if decide (d_m < 1000) then "300m-1km"
  else ">1km".

Definition guess_event_type (d_m angle_deg : R) : string :=
  if bool_decide (d_m < 60) && bool_decide (angle_deg < 40) then "airburst"
  else if decide (d_m < 30) then "airburst"
  else "ground".

(** [mitigation_brief]: the tables it builds and the list it assembles. *)
#[export] Instance R_ge_dec : RelDecision Rge := Rge_dec.

Definition mitigation_base : gmap string (list string) :=
  {[ "<10m" :=
       [ "Public alert within city: do NOT look at the flash; expect shock wave in 1–3 minutes.";
         "Keep people away from windows; cancel ‘go watch the sky’ routines.";
         "Fire service on standby; monitor infrasound/cameras for altitude and yield." ];
     "10-50m" :=
       [ "Targeted alerts for light–moderate overpressure zone; move people indoors away from glass.";
         "Pause traffic on bridges/viaducts within forecasted focus area.";
         "Close fuel handling and reduce ignition sources; fire brigades staged." ];
     "50-140m" :=
       [ "With ≥5–10 years: kinetic impactor mission; pre-flyby to measure density/shape/rotation.";
         "With days–weeks: staged evacuation from severe/moderate blast zones; firebreak prep.";
         "Shut down hazardous industry; isolate gas lines; protect hospitals’ backup power." ];
     "140-300m" :=
       [ "With ≥10 years: series of kinetic impactors; for rubble piles use multi-hit phasing.";
         "Late detection: consider nuclear standoff in deep space (politically hard).";
         "Regional evacuation; protect critical infrastructure and water supplies." ];
     "300m-1km" :=
       [ "International mission: multiple impactors; optional standoff; decade-scale navigation.";
         "Inter-regional evacuation planning; energy/communications continuity plans." ];
     ">1km" :=
       [ "Only early detection + multi-stage deflection over decades will work.";
         "Global civil-protection planning: food, logistics, medical, climate impacts." ] ]}.

Definition airburst_tweaks : list string :=
  [ "Aim to increase burst altitude (if any standoff is possible) to spread the shock.";
    "Prioritize glass hazard mitigation; shelter-in-place beats road evacuation." ].

Definition ground_tweaks : list string :=
  [ "Crater-forming impact: prioritize full evacuation from severe/moderate blast and thermal zones.";
    "Debris fires likely; wide firebreaks, water resources pre-positioned." ].

Definition ocean_block (ocean : bool) : list string :=
  if ocean then
    [ "Ocean impact expected: evaluate bathymetry; plan coastal evacuation to higher ground.";
      "Keep ports clear; protect fuel/chemical tanks; reroute shipping lanes." ]
  else [].

Definition space_ok (lead_years : R) : list string :=
  let lt := Rmax 0.0 lead_years in
  if decide (lt >= 10) then
    [ "Lead time sufficient for kinetic impactor mission(s) after reconnaissance flyby." ]
  else if decide (lt >= 5) then
    [ "Borderline lead time: single kinetic impactor may help if launched promptly." ]
  else if decide (lt >= 1) then
    [ "Too late for slow-push/gravity tractor; consider civil protection and last-minute measures only." ]
  else
    [ "No real time for orbital deflection; focus 100% on civil protection." ].

Definition mitigation_brief (size_class event_type : string) (lead_years : R)
    (ocean : bool) : list string :=
  let out := default [] (mitigation_base !! size_class) in
  let out :=
    out ++ (if decide (event_type = "airburst")
            then airburst_tweaks else ground_tweaks) in
  let out := out ++ ocean_block ocean in
  let out := out ++ space_ok lead_years in
  out.

(** The advice [MainWindow.on_calc] asks for. *)
Definition on_calc_advice (d angle lead_years : R) (ocean : bool)
  : list string :=
  mitigation_brief (classify_size d) (guess_event_type d angle)
                   lead_years ocean.

(** ** The ring-map view ([class RingsView]) *)

Module RingsView.

(** *** The drawable scene

    The items [redraw] adds to the [QGraphicsScene], in the order it adds
    them.  A text item keeps the number it formats rather than the
    formatted digits. *)

Record pen : Type := Pen { pen_color : string; pen_width : Z }.

Record brush : Type := Brush { brush_color : string; brush_alpha : Z }.

Inductive label : Type :=
| SignedKm (km : R)                        (* f"{km:+.0f} km" *)
| PlainKm (km : R)                         (* f"{km:.0f} km" *)
| RingLabel (name : string) (radius_km : R) (* f"{name}: {radius_km:.1f} km" *)
| Plain (s : string).

Inductive item : Type :=
| Line (x1 y1 x2 y2 : R) (p : pen)
| Text (txt : label) (font_pt : Z) (color : string) (x y : R)
| Ellipse (x y w h : R) (p : pen) (b : brush)
| Rect (x y w h : R) (p : pen) (b : brush).

(** *** The widget's state

    The fields set by [__init__], the scene, and the size of the viewport
    ([self.viewport().width()], [self.viewport().height()]). *)

Record view : Type := View {
  effects : option (gmap string R);
  lat : R;
  lon : R;
  zoom : R;
  pan_dx : R;
  pan_dy : R;
  dragging : bool;
  last_pos : R * R;
  scene : list item;
  width : Z;
  height : Z
}.

Definition init (W H : Z) : view :=
  {| effects := None; lat := 0.0; lon := 0.0;
     zoom := 1.0; pan_dx := 0.0; pan_dy := 0.0;
     dragging := false; last_pos := (0, 0);
     scene := []; width := W; height := H |}.

Definition set_scene (s : list item) (v : view) : view :=
  {| effects := effects v; lat := lat v; lon := lon v;
     zoom := zoom v; pan_dx := pan_dx v; pan_dy := pan_dy v;
     dragging := dragging v; last_pos := last_pos v;
     scene := s; width := width v; height := height v |}.

Definition set_zoom (z : R) (v : view) : view :=
  {| effects := effects v; lat := lat v; lon := lon v;
     zoom := z; pan_dx := pan_dx v; pan_dy := pan_dy v;
     dragging := dragging v; last_pos := last_pos v;
     scene := scene v; width := width v; height := height v |}.

Definition set_pan (dx dy : R) (v : view) : view :=
  {| effects := effects v; lat := lat v; lon := lon v;
     zoom := zoom v; pan_dx := dx; pan_dy := dy;
     dragging := dragging v; last_pos := last_pos v;
     scene := scene v; width := width v; height := height v |}.

Definition set_drag (d : bool) (p : R * R) (v : view) : view :=
  {| effects := effects v; lat := lat v; lon := lon v;
     zoom := zoom v; pan_dx := pan_dx v; pan_dy := pan_dy v;
     dragging := d; last_pos := p;
     scene := scene v; width := width v; height := height v |}.

Definition set_size (W H : Z) (v : view) : view :=
  {| effects := effects v; lat := lat v; lon := lon v;
     zoom := zoom v; pan_dx := pan_dx v; pan_dy := pan_dy v;
     dragging := dragging v; last_pos := last_pos v;
     scene := scene v; width := W; height := H |}.

(** Everything but the scene. *)
Definition same_state (v v' : view) : Prop :=
  effects v' = effects v /\ lat v' = lat v /\ lon v' = lon v /\
  zoom v' = zoom v /\ pan_dx v' = pan_dx v /\ pan_dy v' = pan_dy v /\
  dragging v' = dragging v /\ last_pos v' = last_pos v /\
  width v' = width v /\ height v' = height v.

(** *** Geometry *)

Definition km_to_deg_lat (km : R) : R := km / 110.574.

Definition km_to_deg_lon (km lat_deg : R) : result R :=
  let c := Rmax 0.1 (cos (radians lat_deg)) in
  py_div km (111.320 * c).

(** [exp] is an [int], so [10 ** exp] is the power [powerRZ 10 exp], a
    fraction when [exp] is negative.  Over the reals; on floats
    [10 ** exp] underflows to 0.0 for the smallest arguments:
    [Underflow._nice_step]. *)
Definition _nice_step (x : R) : result R :=
  if decide (x <= 0) then mret 1.0
  else
    l ← log10 x;
    let exp := Zfloor l in
    frac ← py_div x (powerRZ 10 exp);
    let nice :=
      if decide (frac < 1.5) then 1.0
      else if decide (frac < 3.5) then 2.0
      else if decide (frac < 7.5) then 5.0
      else 10.0 in
    mret (nice * powerRZ 10 exp).

(** *** Painting *)

(** [if self.effects:] *)
Definition truthy (e : option (gmap string R)) : bool :=
  match e with
  | Some m => bool_decide (m ≠ ∅)
  | None => false
  end.

Definition keys : list string :=
  [ "light_blast_km"; "moderate_blast_km"; "severe_blast_km";
    "light_thermal_km"; "severe_thermal_km" ].

(** [max(l, default=d)] *)
Definition max_default (l : list R) (d : R) : R :=
  match l with
  | [] => d
  | x :: l' => fold_left Rmax l' x
  end.

Definition redraw_Rmax_km (v : view) : R :=
  match effects v with
  | Some e =>
      if truthy (effects v) then
        let vals := map (fun k => default 0.0 (e !! k)) keys in
        max_default (filter (fun x => x ≠ 0) vals) 1.0
      else 1.0
  | None => 1.0
  end.

Definition SAFE_MARGIN : R := 1.10.

(** Over the reals.  On floats the divisor is infinite for a radius near
    the end of the binary64 range, and the quotient 0.0:
    [Binary64.redraw_scale]. *)
Definition redraw_px_per_km (v : view) : result R :=
  px_per_km ← py_div (IZR (Z.min (width v) (height v)) / 2)
                     (Rmax (redraw_Rmax_km v) 1e-9 * SAFE_MARGIN);
  mret (px_per_km * zoom v).

Definition grid_pen : pen := Pen "#222833" 1.
Definition label_color : string := "#9AA3AF".
Definition sb_pen : pen := Pen "#A9B1BD" 2.

(** The first [while] loop: vertical lines, from [x0] upwards. *)
Fixpoint vertical_lines (fuel : nat) (x0 half_w_km step_km px_per_km cx : R)
    (H : Z) : result (list item) :=
  if decide (x0 <= half_w_km + 1e-9) then
    match fuel with
    | O => OutOfFuel
    | S fuel' =>
        let x := cx + x0 * px_per_km in
        let line := Line x 0 x (IZR H) grid_pen in
        let txt :=
          if decide (Rabs x0 > 1e-6)
          then [Text (SignedKm x0) 9 label_color (x + 6) 10]
          else [] in
        rest ← vertical_lines fuel' (x0 + step_km) half_w_km step_km
                              px_per_km cx H;
        mret (line :: txt ++ rest)
    end
  else mret [].

(** The second [while] loop: horizontal lines, from [y0] upwards. *)
Fixpoint horizontal_lines (fuel : nat) (y0 half_h_km step_km px_per_km cy : R)
    (W : Z) : result (list item) :=
  if decide (y0 <= half_h_km + 1e-9) then
    match fuel with
    | O => OutOfFuel
    | S fuel' =>
        let y := cy - y0 * px_per_km in
        let line := Line 0 y (IZR W) y grid_pen in
        let txt :=
          if decide (Rabs y0 > 1e-6)
          then [Text (SignedKm y0) 9 label_color 8 (y - 14)]
          else [] in
        rest ← horizontal_lines fuel' (y0 + step_km) half_h_km step_km
                                px_per_km cy W;
        mret (line :: txt ++ rest)
    end
  else mret [].

(** The local function [ring] of [redraw]. *)
Definition ring (px_per_km cx cy : R) (radius_km : option R)
    (color_hex : string) (alpha_fill : Z) (lbl : option string) : list item :=
  match radius_km with
  | None => []
  | Some radius_km =>
      if bool_decide (radius_km = 0) || bool_decide (radius_km <= 0) then []
      else
        let r := radius_km * px_per_km in
        Ellipse (cx - r) (cy - r) (2 * r) (2 * r)
                (Pen color_hex 2) (Brush color_hex alpha_fill)
        :: match lbl with
           | Some name =>
               if decide (name = "") then []
               else [Text (RingLabel name radius_km) 9 "#A9B1BD"
                          (cx + r + 8) (cy - 10)]
           | None => []
           end
  end.

Definition legend : list (string * string) :=
  [ ("Severe blast", "#ff4d4f"); ("Moderate blast", "#fa8c16");
    ("Light blast", "#fadb14"); ("Severe thermal", "#d46b08");
    ("Light thermal", "#faad14") ].

Fixpoint legend_items (y : Z) (l : list (string * string)) : list item :=
  match l with
  | [] => []
  | (text, color) :: l' =>
      Rect 10 (IZR y) 14 8 (Pen color 1) (Brush color 255)
      :: Text (Plain text) 9 "#9AA3AF" 30 (IZR (y - 5))
      :: legend_items (y + 18) l'
  end.

Definition scale_bar (km_len px_per_km : R) (H : Z) : list item :=
  let px_len := km_len * px_per_km in
  let sb_y := IZR (H - 24) in
  let sb_x0 := 20 in
  [ Line sb_x0 sb_y (sb_x0 + px_len) sb_y sb_pen;
    Line sb_x0 (sb_y - 5) sb_x0 (sb_y + 5) sb_pen;
    Line (sb_x0 + px_len) (sb_y - 5) (sb_x0 + px_len) (sb_y + 5) sb_pen;
    Text (PlainKm km_len) 10 label_color (sb_x0 + px_len + 8) (sb_y - 14) ].

Definition rings (v : view) (px_per_km cx cy : R) : list item :=
  match effects v with
  | Some e =>
      if truthy (effects v) then
        ring px_per_km cx cy (e !! "light_thermal_km") "#faad14" 32
             (Some "Light thermal")
        ++ ring px_per_km cx cy (e !! "severe_thermal_km") "#d46b08" 40
             (Some "Severe thermal")
        ++ ring px_per_km cx cy (e !! "light_blast_km") "#fadb14" 28
             (Some "Light blast")
        ++ ring px_per_km cx cy (e !! "moderate_blast_km") "#fa8c16" 28
             (Some "Moderate blast")
        ++ ring px_per_km cx cy (e !! "severe_blast_km") "#ff4d4f" 48
             (Some "Severe blast")
      else []
  | None => []
  end.

(** The grid step and the two starting offsets, as [redraw] computes them
    from the scale. *)
Definition redraw_step_km (km_per_px : R) : result R :=
  _nice_step (120.0 * km_per_px).

Definition grid_start (half_km step_km : R) : result R :=
  q ← py_div half_km step_km;
  mret (- IZR (Zfloor q) * step_km).

Definition redraw (fuel : nat) (v : view) : result view :=
  let v := set_scene [] v in
  let W := width v in
  let H := height v in
  if bool_decide (W ≤ 0)%Z || bool_decide (H ≤ 0)%Z then mret v
  else
    let cx := IZR W / 2 + pan_dx v in
    let cy := IZR H / 2 + pan_dy v in
    px_per_km ← redraw_px_per_km v;
    km_per_px ← py_div 1.0 px_per_km;
    step_km ← redraw_step_km km_per_px;
    let half_w_km := (IZR W / 2) * km_per_px in
    let half_h_km := (IZR H / 2) * km_per_px in
    x0 ← grid_start half_w_km step_km;
    vlines ← vertical_lines fuel x0 half_w_km step_km px_per_km cx H;
    y0 ← grid_start half_h_km step_km;
    hlines ← horizontal_lines fuel y0 half_h_km step_km px_per_km cy W;
    km_len ← _nice_step (150.0 * km_per_px);
    let bar := scale_bar km_len px_per_km H in
    let center :=
      [ Ellipse (cx - 5) (cy - 5) 10 10 (Pen "transparent" 1)
                (Brush "#3291ff" 255) ] in
    mret (set_scene (vlines ++ hlines ++ bar ++ rings v px_per_km cx cy
                     ++ center ++ legend_items 10 legend) v).

(** *** Event handlers *)

Definition set_data (fuel : nat) (lat lon : R) (e : gmap string R)
    (v : view) : result view :=
  redraw fuel
    {| effects := Some e; lat := lat; lon := lon;
       zoom := 1.0; pan_dx := 0.0; pan_dy := 0.0;
       dragging := dragging v; last_pos := last_pos v;
       scene := scene v; width := width v; height := height v |}.

Definition resizeEvent (fuel : nat) (W H : Z) (v : view) : result view :=
  redraw fuel (set_size W H v).

(** The local [factor] of [wheelEvent]. *)
Definition wheel_factor (angleDelta_y : Z) : R :=
  if decide (angleDelta_y > 0)%Z then 1.2 else 1 / 1.2.

Definition wheelEvent (fuel : nat) (angleDelta_y : Z) (v : view)
  : result view :=
  if decide (angleDelta_y = 0)%Z then mret v
  else
    let factor := wheel_factor angleDelta_y in
    redraw fuel (set_zoom (Rmin 20.0 (Rmax 0.2 (zoom v * factor))) v).

Definition mousePressEvent (left_button : bool) (pos : R * R) (v : view)
  : view :=
  if left_button then set_drag true pos v else v.

Definition mouseMoveEvent (fuel : nat) (pos : R * R) (v : view)
  : result view :=
  if dragging v then
    let delta := (fst pos - fst (last_pos v), snd pos - snd (last_pos v)) in
    redraw fuel
      (set_drag true pos
         (set_pan (pan_dx v + fst delta) (pan_dy v + snd delta) v))
  else mret v.

Definition mouseReleaseEvent (left_button : bool) (v : view) : view :=
  if left_button then set_drag false (last_pos v) v else v.

Definition mouseDoubleClickEvent (fuel : nat) (v : view) : result view :=
  redraw fuel (set_pan 0.0 0.0 (set_zoom 1.0 v)).

(** A run of wheel events, oldest first. *)
Fixpoint wheel_events (fuel : nat) (deltas : list Z) (v : view)
  : result view :=
  match deltas with
  | [] => mret v
  | d :: deltas' => v' ← wheelEvent fuel d v; wheel_events fuel deltas' v'
  end.

(** *** The events Qt delivers to the handlers *)

Inductive event : Type :=
| SetData (lat lon : R) (e : gmap string R)
| Resize (W H : Z)
| Wheel (angleDelta_y : Z)
| MousePress (left_button : bool) (pos : R * R)
| MouseMove (pos : R * R)
| MouseRelease (left_button : bool)
| MouseDoubleClick.

Definition handle (fuel : nat) (ev : event) (v : view) : result view :=
  match ev with
  | SetData lat lon e => set_data fuel lat lon e v
  | Resize W H => resizeEvent fuel W H v
  | Wheel dy => wheelEvent fuel dy v
  | MousePress left_button pos => mret (mousePressEvent left_button pos v)
  | MouseMove pos => mouseMoveEvent fuel pos v
  | MouseRelease left_button => mret (mouseReleaseEvent left_button v)
  | MouseDoubleClick => mouseDoubleClickEvent fuel v
  end.

(** A run of events, oldest first. *)
Fixpoint run_events (fuel : nat) (evs : list event) (v : view)
  : result view :=
  match evs with
  | [] => mret v
  | ev :: evs' => v' ← handle fuel ev v; run_events fuel evs' v'
  end.

(** *** The range of the widget's state

    The sides of a widget are at most 2^24 - 1 pixels (Qt's
    [QWIDGETSIZE_MAX]), the zoom is kept within [[0.2, 20]] by
    [wheelEvent], and the radii pushed by [set_data] are bounded here by
    1e100 km: within these bounds every value [redraw] computes on binary64
    floats is finite, and non-zero where the real number is. *)

Definition radii_in_range (e : gmap string R) : Prop :=
  forall k : string, In k keys -> Rabs (default 0 (e !! k)) <= 1e100.

Definition in_range (v : view) : Prop :=
  (width v < 2 ^ 24)%Z /\ (height v < 2 ^ 24)%Z /\
  0.2 <= zoom v <= 20 /\
  forall e : gmap string R, effects v = Some e -> radii_in_range e.

Definition event_in_range (ev : event) : Prop :=
  match ev with
  | SetData _ _ e => radii_in_range e
  | Resize W H => (W < 2 ^ 24)%Z /\ (H < 2 ^ 24)%Z
  | _ => True
  end.

End RingsView.

(** * Where binary64 leaves the reals

    The two modules below write parts of the program a second time, with
    the behaviour of binary64 floats that the real-number embedding above
    leaves out. *)

(** ** Underflow in [_nice_step]

    Floats are still the real numbers they denote; what is added is the
    underflow of [10 ** exp]. *)

Module Underflow.

(** [10 ** exp].  With a negative [exp] the interpreter computes a float
    power, and rounding to nearest turns a value of at most [2^-1075], half
    of the smallest positive float [2^-1074], into 0.0. *)
Definition pow10 (exp : Z) : R :=
  if decide (powerRZ 10 exp <= powerRZ 2 (-1075)) then 0
  else powerRZ 10 exp.

Definition _nice_step (x : R) : result R :=
  if decide (x <= 0) then mret 1.0
  else
    l ← log10 x;
    let exp := Zfloor l in
    frac ← py_div x (pow10 exp);
    let nice :=
      if decide (frac < 1.5) then 1.0
      else if decide (frac < 3.5) then 2.0
      else if decide (frac < 7.5) then 5.0
      else 10.0 in
    mret (nice * pow10 exp).

End Underflow.

(** ** Overflow in the physics chain and in the scale of [redraw]

    Here a Python [float] is a binary64 float of the kernel
    ([PrimFloat.float]), whose [*], [/] and comparisons are those of
    IEEE 754, so that the code can be replayed bit for bit: a product
    beyond the range is [infinity], a quotient by [infinity] is 0.0.  Only
    code made of these operations is written here: the chain of [on_calc]
    up to the kinetic yield, and the scale computation of [redraw]. *)

Module Binary64.

Import PrimFloat.
#[local] Set Warnings "-inexact-float".
#[local] Open Scope float_scope.

(** An [int] within the range of a C [int], as a float. *)
Definition of_int (z : Z) : float := of_uint63 (Uint63.of_Z z).

(** [a / b] on floats. *)
Definition py_div (a b : float) : result float :=
  if b =? 0 then Raise ZeroDivisionError else Ok (a / b).

(** [max(a, b)]: [b] when [b > a], else [a]. *)
Definition py_max (a b : float) : float := if a <? b then b else a.

(** [x ** n] for a float [x] and an [int] [n] of 2 or 3.  The power is
    taken here by multiplication (the interpreter calls the C library's
    [pow], which can differ from it in the last bit only); a finite [x]
    whose power is beyond the range raises [OverflowError]. *)
Definition int_pow (x : float) (n : positive) : result float :=
  let r := Pos.iter (fun acc => acc * x) 1 n in
  if is_infinity r && is_finite x then Raise OverflowError else Ok r.

(** [math.pi] *)
Definition pi : float := 3.141592653589793.

Definition volume_sphere (d_m : float) : result float :=
  cube ← int_pow (d_m / 2) 3;
  mret (4 / 3 * pi * cube).

Definition mass_from_diameter (d_m rho : float) : result float :=
  vol ← volume_sphere d_m;
  mret (rho * vol).

Definition kinetic_energy_joules (m_kg v_km_s : float) : result float :=
  sq ← int_pow (v_km_s * 1000.0) 2;
  mret (0.5 * m_kg * sq).

Definition joules_to_megatons_tnt (E_j : float) : float :=
  E_j / 4.184e15.

(** [m], [E] and [mt] of [MainWindow.on_calc]. *)
Definition on_calc_mt (d v rho : float) : result float :=
  m ← mass_from_diameter d rho;
  E ← kinetic_energy_joules m v;
  mret (joules_to_megatons_tnt E).

(** [if self.effects:] *)
Definition truthy (e : option (gmap string float)) : bool :=
  match e with
  | Some m => negb (Nat.eqb (size m) 0)
  | None => false
  end.

(** [max(l, default=d)] *)
Definition max_default (l : list float) (d : float) : float :=
  match l with
  | [] => d
  | x :: l' => fold_left py_max l' x
  end.

Definition redraw_Rmax_km (effects : option (gmap string float)) : float :=
  match effects with
  | Some e =>
      if truthy effects then
        let vals := map (fun k => default 0.0 (e !! k)) RingsView.keys in
        max_default (List.filter (fun v => negb (v =? 0)) vals) 1.0
      else 1.0
  | None => 1.0
  end.

Definition SAFE_MARGIN : float := 1.10.

(** [redraw] from its first line to [km_per_px]: nothing when the viewport
    is empty, else [px_per_km] and [km_per_px]. *)
Definition redraw_scale (effects : option (gmap string float)) (zoom : float)
    (W H : Z) : result (option (float * float)) :=
  if (W <=? 0)%Z || (H <=? 0)%Z then mret None
  else
    px_per_km ← py_div (of_int (Z.min W H) / 2)
                       (py_max (redraw_Rmax_km effects) 1e-9 * SAFE_MARGIN);
    let px_per_km := px_per_km * zoom in
    km_per_px ← py_div 1.0 px_per_km;
    mret (Some (px_per_km, km_per_px)).

End Binary64.

(** * Properties of the effects model *)

(** ** Numeric facts *)

Lemma PI_bounds : 3.14159 < PI < 3.1416.
Proof.
  destruct (PI_2_3_7_ineq 2) as [lo hi].
  unfold sum_f_R0, tg_alt, PI_2_3_7_tg, Ratan_seq in lo, hi.
  simpl in lo, hi.
  split; lra.
Qed.

Lemma sqrt2_bounds : 1.41421 < sqrt 2 < 1.41422.
Proof.
  assert (Hsq := sqrt_sqrt 2 ltac:(lra)).
  assert (Hpos := sqrt_pos 2).
  split; nra.
Qed.

Lemma Rpower_cube_third (a : R) : 0 < a -> Rpower (a ^ 3) (1 / 3) = a.
Proof.
  intros Ha.
  rewrite <- (Rpower_pow 3 a Ha), Rpower_mult.
  replace (INR 3 * (1 / 3)) with 1 by (simpl; lra).
  apply Rpower_1; exact Ha.
Qed.

Lemma Rpower_third_pos (x : R) : 0 < Rpower x (1 / 3).
Proof. unfold Rpower. apply exp_pos. Qed.

Lemma Rpower_third_le (x y : R) :
  0 < x -> x <= y -> Rpower x (1 / 3) <= Rpower y (1 / 3).
Proof. intros Hx Hxy. apply Rle_Rpower_l; lra. Qed.

Lemma Rpower_third_bounds (a b x : R) :
  0 < a -> a ^ 3 <= x -> x < b ^ 3 -> 0 < b ->
  a <= Rpower x (1 / 3) < b.
Proof.
  intros Ha Hlo Hhi Hb.
  assert (Ha3 : 0 < a ^ 3) by (apply pow_lt; exact Ha).
  split.
  - rewrite <- (Rpower_cube_third a Ha) at 1.
    apply Rpower_third_le; lra.
  - rewrite <- (Rpower_cube_third b Hb) at 1.
    apply Rlt_Rpower_l; lra.
Qed.

(** ** The model never leaves the floats *)

Lemma float_pow_pos (x y : R) : 0 < x -> float_pow x y = Ok (Rpower x y).
Proof.
  intros Hx. unfold float_pow.
  destruct (decide (0 < x)) as [_ | Hn]; [reflexivity | contradiction].
Qed.

Lemma cube_root_base_floor (yield_mt : R) : 1e-12 <= Rmax yield_mt 1e-12.
Proof. apply Rmax_r. Qed.

Lemma scaled_radius_km_ok (yield_mt k : R) :
  scaled_radius_km yield_mt k
  = Ok (k * Rpower (Rmax yield_mt 1e-12) (1 / 3)).
Proof.
  unfold scaled_radius_km.
  rewrite float_pow_pos; [reflexivity |].
  pose proof (cube_root_base_floor yield_mt). lra.
Qed.

Lemma surface_yield_mt_floor (kinetic_mt angle_deg : R) :
  1e-9 <= surface_yield_mt kinetic_mt angle_deg.
Proof. unfold surface_yield_mt. apply Rmax_r. Qed.

Lemma surface_yield_base (kinetic_mt angle_deg : R) :
  Rmax (surface_yield_mt kinetic_mt angle_deg) 1e-12
  = surface_yield_mt kinetic_mt angle_deg.
Proof.
  pose proof (surface_yield_mt_floor kinetic_mt angle_deg).
  apply Rmax_left. lra.
Qed.

(** What [impact_effects] returns: the yield under its key and, under the
    key of each radius kind, that kind's constant times the cube root of
    the yield. *)
Lemma impact_effects_ok (kinetic_mt angle_deg : R) :
  let Y := surface_yield_mt kinetic_mt angle_deg in
  exists out : gmap string R,
    impact_effects kinetic_mt angle_deg = Ok out /\
    out !! "effective_surface_yield_mt" = Some Y /\
    forall kind : radius_kind,
      out !! radius_key kind = Some (radius_k kind * Rpower Y (1 / 3)).
Proof.
  intros Y.
  unfold impact_effects, blast_radii_km, thermal_radii_km.
  rewrite !scaled_radius_km_ok, surface_yield_base.
  fold Y. cbn [mbind result_bind mret result_ret].
  eexists. split; [reflexivity |].
  split; [reflexivity |].
  intros []; reflexivity.
Qed.

(** ** The coupling factor *)

(** Goals about [Rmax] and [Rmin] of explicit bounds. *)
Ltac minmax_lra :=
  unfold Rmax, Rmin in *; repeat destruct (Rle_dec _ _); lra.

Lemma surface_yield_theta_in_range (angle_deg : R) :
  1 <= angle_deg <= 90 -> surface_yield_theta angle_deg = angle_deg.
Proof.
  intros [Hlo Hhi]. unfold surface_yield_theta. minmax_lra.
Qed.

Lemma surface_yield_theta_bounds (angle_deg : R) :
  1 <= surface_yield_theta angle_deg <= 90.
Proof.
  unfold surface_yield_theta. split; minmax_lra.
Qed.

Lemma surface_yield_theta_mono (a1 a2 : R) :
  a1 <= a2 -> surface_yield_theta a1 <= surface_yield_theta a2.
Proof.
  intros Hle. unfold surface_yield_theta.
  apply Rle_max_compat_l, Rle_min_compat_l, Hle.
Qed.

Lemma radians_quarter_turn (theta : R) :
  1 <= theta <= 90 -> 0 < radians theta <= PI / 2.
Proof.
  intros [Hlo Hhi]. unfold radians.
  pose proof PI_RGT_0. split; nra.
Qed.

Lemma surface_yield_f_bounds (angle_deg : R) :
  0.55 <= surface_yield_f angle_deg <= 1.05.
Proof.
  unfold surface_yield_f.
  pose proof (radians_quarter_turn _ (surface_yield_theta_bounds angle_deg))
    as [Hlo Hhi].
  pose proof PI_RGT_0.
  assert (0 <= sin (radians (surface_yield_theta angle_deg)))
    by (apply sin_ge_0; lra).
  pose proof (SIN_bound (radians (surface_yield_theta angle_deg))) as [_ Hs].
  lra.
Qed.

Lemma surface_yield_f_mono (a1 a2 : R) :
  a1 <= a2 -> surface_yield_f a1 <= surface_yield_f a2.
Proof.
  intros Hle. unfold surface_yield_f.
  pose proof (radians_quarter_turn _ (surface_yield_theta_bounds a1)).
  pose proof (radians_quarter_turn _ (surface_yield_theta_bounds a2)).
  pose proof (surface_yield_theta_mono a1 a2 Hle).
  pose proof PI_RGT_0.
  assert (sin (radians (surface_yield_theta a1))
          <= sin (radians (surface_yield_theta a2))).
  { apply sin_incr_1; try lra. unfold radians. nra. }
  lra.
Qed.

Lemma surface_yield_mt_mono (k1 k2 a1 a2 : R) :
  0 <= k1 <= k2 -> a1 <= a2 ->
  surface_yield_mt k1 a1 <= surface_yield_mt k2 a2.
Proof.
  intros [Hk1 Hk] Ha. unfold surface_yield_mt. cbv zeta.
  apply Rle_max_compat_r.
  pose proof (surface_yield_f_bounds a1) as [Hf1 _].
  pose proof (surface_yield_f_mono a1 a2 Ha) as Hf.
  assert (0.55 <= Rmin (surface_yield_f a1) 1.0)
    by (apply Rmin_glb; lra).
  assert (Rmin (surface_yield_f a1) 1.0 <= Rmin (surface_yield_f a2) 1.0)
    by (apply Rle_min_compat_r; exact Hf).
  nra.
Qed.

(** ** The body parameters of the on-screen defaults *)

Lemma on_calc_mt_nonneg (d v rho : R) :
  0 < d -> 0 < rho -> 0 <= on_calc_mt d v rho.
Proof.
  intros Hd Hrho.
  unfold on_calc_mt, joules_to_megatons_tnt, on_calc_energy,
    kinetic_energy_joules, on_calc_mass, mass_from_diameter, volume_sphere.
  pose proof PI_RGT_0 as Hpi.
  assert (0 < (d / 2) ^ 3) by (apply pow_lt; lra).
  assert (0 <= (v * 1000.0) ^ 2) by (apply pow2_ge_0).
  assert (0 < rho * (4 / 3 * PI * (d / 2) ^ 3)) by
    (apply Rmult_lt_0_compat; [lra | apply Rmult_lt_0_compat; [lra | lra]]).
  apply Rmult_le_pos; [| lra].
  apply Rmult_le_pos; [| lra].
  lra.
Qed.

Lemma on_calc_mt_mono (d1 d2 v1 v2 rho : R) :
  0 < d1 <= d2 -> 0 < v1 <= v2 -> 0 < rho ->
  on_calc_mt d1 v1 rho <= on_calc_mt d2 v2 rho.
Proof.
  intros [Hd1 Hd] [Hv1 Hv] Hrho.
  unfold on_calc_mt, joules_to_megatons_tnt, on_calc_energy,
    kinetic_energy_joules, on_calc_mass, mass_from_diameter, volume_sphere.
  pose proof PI_RGT_0 as Hpi.
  assert (Hc : (d1 / 2) ^ 3 <= (d2 / 2) ^ 3) by (apply pow_incr; lra).
  assert (Hc1 : 0 < (d1 / 2) ^ 3) by (apply pow_lt; lra).
  assert (Hs : (v1 * 1000.0) ^ 2 <= (v2 * 1000.0) ^ 2)
    by (apply pow_incr; lra).
  assert (Hs1 : 0 < (v1 * 1000.0) ^ 2) by (apply pow_lt; lra).
  apply Rmult_le_compat_r; [lra |].
  assert (Hm : rho * (4 / 3 * PI * (d1 / 2) ^ 3)
               <= rho * (4 / 3 * PI * (d2 / 2) ^ 3)).
  { apply Rmult_le_compat_l; [lra |].
    apply Rmult_le_compat_l; [lra | exact Hc]. }
  assert (Hm1 : 0 < rho * (4 / 3 * PI * (d1 / 2) ^ 3)).
  { apply Rmult_lt_0_compat; [lra |]. apply Rmult_lt_0_compat; lra. }
  apply Rmult_le_compat; lra.
Qed.

Lemma example_mass : 1.96349e8 < on_calc_mass 50 3000 < 1.96351e8.
Proof.
  unfold on_calc_mass, mass_from_diameter, volume_sphere.
  pose proof PI_bounds. split; lra.
Qed.

Lemma example_energy : 3.92698e16 < on_calc_energy 50 20 3000 < 3.92702e16.
Proof.
  unfold on_calc_energy, kinetic_energy_joules.
  pose proof example_mass. split; lra.
Qed.

Lemma example_mt : 9.3856 < on_calc_mt 50 20 3000 < 9.3859.
Proof.
  unfold on_calc_mt, joules_to_megatons_tnt.
  pose proof example_energy. split; lra.
Qed.

Lemma example_f : 0.90355 < surface_yield_f 45 < 0.90356.
Proof.
  unfold surface_yield_f.
  rewrite surface_yield_theta_in_range by lra.
  replace (radians 45) with (PI / 4) by (unfold radians; lra).
  rewrite sin_PI4.
  pose proof sqrt2_bounds as [Hlo Hhi].
  assert (Hinv : 1 / sqrt 2 * sqrt 2 = 1) by (field; lra).
  split; nra.
Qed.

(** The effective surface yield of the example is 8.48 Mt to three
    figures, hence 8.5 Mt to two. *)
Lemma example_surface_yield :
  8.4803 < surface_yield_mt (on_calc_mt 50 20 3000) 45 < 8.4808.
Proof.
  unfold surface_yield_mt. cbv zeta.
  pose proof example_mt. pose proof example_f.
  rewrite Rmin_left by lra.
  rewrite Rmax_left by nra.
  split; nra.
Qed.

(** ** The effects computation against its reference definition *)

(** C1.  For every diameter [d > 0], velocity [v > 0], density [rho > 0]
    and angle in [[1, 90]], the chain of [on_calc] computes
    mass [= rho * (4/3) PI (d/2)^3], energy [= 1/2 * mass * (1000 v)^2],
    kinetic yield [= E / 4.184e15], and [impact_effects] returns the
    effective surface yield [Y] together with the five radii
    [k * Y^(1/3)] for [k = 1.1, 2.2, 3.8, 1.6, 4.5].  At [d = 50],
    [v = 20], [rho = 3000], [angle = 45] the mass is 1.96e8 kg, the energy
    3.93e16 J, the kinetic yield 9.39 Mt and the severe-blast radius
    2.24 km to the figures quoted, and the effective surface yield rounds
    to 8.5 Mt, as the quoted 8.49 does, to two significant figures. *)
Theorem effects_match_reference :
  (forall d v rho angle : R,
      0 < d -> 0 < v -> 0 < rho -> 1 <= angle <= 90 ->
      let mass := rho * (4 / 3 * PI * (d / 2) ^ 3) in
      let E := 1 / 2 * mass * (1000 * v) ^ 2 in
      let Mt := E / 4.184e15 in
      on_calc_mass d rho = mass /\
      on_calc_energy d v rho = E /\
      on_calc_mt d v rho = Mt /\
      exists (out : gmap string R) (Y : R),
        on_calc_effects d v rho angle = Ok out /\
        Y = Rmax (Mt * Rmin (0.55 + 0.5 * sin (angle * PI / 180)) 1) 1e-9 /\
        out !! "effective_surface_yield_mt" = Some Y /\
        out !! "severe_blast_km" = Some (1.1 * Rpower Y (1 / 3)) /\
        out !! "moderate_blast_km" = Some (2.2 * Rpower Y (1 / 3)) /\
        out !! "light_blast_km" = Some (3.8 * Rpower Y (1 / 3)) /\
        out !! "severe_thermal_km" = Some (1.6 * Rpower Y (1 / 3)) /\
        out !! "light_thermal_km" = Some (4.5 * Rpower Y (1 / 3)))
  /\
  (1.955e8 <= on_calc_mass 50 3000 < 1.965e8 /\
   3.925e16 <= on_calc_energy 50 20 3000 < 3.935e16 /\
   9.385 <= on_calc_mt 50 20 3000 < 9.395 /\
   exists (out : gmap string R) (Y severe_blast_km : R),
     on_calc_effects 50 20 3000 45 = Ok out /\
     out !! "effective_surface_yield_mt" = Some Y /\
     out !! "severe_blast_km" = Some severe_blast_km /\
     8.45 <= Y < 8.55 /\
     2.235 <= severe_blast_km < 2.245).
Proof.
  split.
  - intros d v rho angle Hd Hv Hrho Hangle mass E Mt.
    assert (Hmass : on_calc_mass d rho = mass) by reflexivity.
    assert (HE : on_calc_energy d v rho = E).
    { unfold on_calc_energy, kinetic_energy_joules.
      rewrite Hmass. unfold E. lra. }
    assert (HMt : on_calc_mt d v rho = Mt).
    { unfold on_calc_mt, joules_to_megatons_tnt. rewrite HE. reflexivity. }
    repeat split; try assumption.
    destruct (impact_effects_ok (on_calc_mt d v rho) angle)
      as (out & Hout & HY & Hradii).
    exists out, (surface_yield_mt (on_calc_mt d v rho) angle).
    split; [exact Hout |].
    split.
    { unfold surface_yield_mt, surface_yield_f. cbv zeta.
      rewrite surface_yield_theta_in_range by exact Hangle.
      rewrite HMt. unfold radians.
      replace 1.0 with 1 by lra. reflexivity. }
    split; [exact HY |].
    pose proof (Hradii SevereBlast). pose proof (Hradii ModerateBlast).
    pose proof (Hradii LightBlast). pose proof (Hradii SevereThermal).
    pose proof (Hradii LightThermal).
    repeat split; assumption.
  - pose proof example_mass. pose proof example_energy.
    pose proof example_mt.
    repeat (split; [lra |]).
    destruct (impact_effects_ok (on_calc_mt 50 20 3000) 45)
      as (out & Hout & HY & Hradii).
    pose proof example_surface_yield as [Hlo Hhi].
    eexists out, _, _.
    split; [exact Hout |].
    split; [exact HY |].
    split; [exact (Hradii SevereBlast) |].
    split; [lra |].
    assert (Hc : 2.0319 <= Rpower (surface_yield_mt (on_calc_mt 50 20 3000) 45)
                             (1 / 3) < 2.0408)
      by (apply Rpower_third_bounds; lra).
    simpl radius_k. lra.
Qed.

Lemma effects_match_reference_witness :
  exists (out : gmap string R) (Y : R),
    on_calc_effects 50 20 3000 45 = Ok out /\
    out !! "effective_surface_yield_mt" = Some Y /\
    out !! "light_thermal_km" = Some (4.5 * Rpower Y (1 / 3)).
Proof.
  destruct (proj1 effects_match_reference 50 20 3000 45)
    as (_ & _ & _ & out & Y & Hout & _ & HY & _ & _ & _ & _ & Hlt);
    try lra.
  exists out, Y. repeat split; assumption.
Defined.

(** ** Fixed ratios and ordering of the radii *)

(** C2.  For every input the five radii stand in the ratios of their
    constants, whatever the yield: for every pair of kinds [a], [b] the
    quotient of the radii is [radius_k a / radius_k b] (so
    severe_blast / moderate_blast = 1.1 / 2.2); hence
    severe_blast <= moderate_blast <= light_blast and
    severe_thermal <= light_thermal.  The positivity of diameter, velocity
    and density is not needed. *)
Theorem radii_fixed_ratios (d v rho angle : R) :
  exists out : gmap string R,
    on_calc_effects d v rho angle = Ok out /\
    (forall a b : radius_kind,
        exists ra rb : R,
          out !! radius_key a = Some ra /\
          out !! radius_key b = Some rb /\
          0 < rb /\
          ra / rb = radius_k a / radius_k b) /\
    (exists sb mb lb st lt : R,
        out !! "severe_blast_km" = Some sb /\
        out !! "moderate_blast_km" = Some mb /\
        out !! "light_blast_km" = Some lb /\
        out !! "severe_thermal_km" = Some st /\
        out !! "light_thermal_km" = Some lt /\
        sb / mb = 1.1 / 2.2 /\
        sb <= mb <= lb /\ st <= lt).
Proof.
  destruct (impact_effects_ok (on_calc_mt d v rho) angle)
    as (out & Hout & _ & Hradii).
  set (c := Rpower (surface_yield_mt (on_calc_mt d v rho) angle) (1 / 3))
    in *.
  assert (Hc : 0 < c) by apply Rpower_third_pos.
  exists out. split; [exact Hout |]. split.
  - intros a b. exists (radius_k a * c), (radius_k b * c).
    split; [apply Hradii |]. split; [apply Hradii |].
    assert (Hb : 0 < radius_k b) by (destruct b; simpl; lra).
    split; [apply Rmult_lt_0_compat; assumption |].
    field. lra.
  - exists (1.1 * c), (2.2 * c), (3.8 * c), (1.6 * c), (4.5 * c).
    split; [exact (Hradii SevereBlast) |].
    split; [exact (Hradii ModerateBlast) |].
    split; [exact (Hradii LightBlast) |].
    split; [exact (Hradii SevereThermal) |].
    split; [exact (Hradii LightThermal) |].
    split; [field; lra |].
    split; [split |]; nra.
Qed.

(** ** The surface-coupling factor *)

(** C3.  For every angle in [[1, 90]] the factor
    [min(0.55 + 0.5 sin(angle), 1)] lies in [[0.55, 1]]; at 90 degrees it
    is exactly 1; the effective surface yield is
    [max(kinetic_Mt * factor, 1e-9)], where an angle below 1 is used as 1
    and an angle above 90 as 90. *)
Theorem coupling_factor_bounds :
  (forall angle : R,
      1 <= angle <= 90 ->
      surface_yield_f angle = 0.55 + 0.5 * sin (angle * PI / 180) /\
      0.55 <= Rmin (surface_yield_f angle) 1 <= 1) /\
  Rmin (surface_yield_f 90) 1 = 1 /\
  (forall kinetic_mt angle : R,
      surface_yield_mt kinetic_mt angle
      = Rmax (kinetic_mt * Rmin (surface_yield_f angle) 1) 1e-9) /\
  (forall angle : R,
      angle < 1 -> surface_yield_f angle = surface_yield_f 1) /\
  (forall angle : R,
      90 < angle -> surface_yield_f angle = surface_yield_f 90).
Proof.
  split; [| split; [| split; [| split]]].
  - intros angle Hangle. split.
    + unfold surface_yield_f.
      rewrite surface_yield_theta_in_range by exact Hangle.
      reflexivity.
    + pose proof (surface_yield_f_bounds angle). minmax_lra.
  - assert (Hf : surface_yield_f 90 = 1.05).
    { unfold surface_yield_f.
      rewrite surface_yield_theta_in_range by lra.
      replace (radians 90) with (PI / 2) by (unfold radians; lra).
      rewrite sin_PI2. lra. }
    rewrite Hf. minmax_lra.
  - intros kinetic_mt angle. unfold surface_yield_mt. cbv zeta.
    replace 1.0 with 1 by lra. reflexivity.
  - intros angle Hlt. unfold surface_yield_f.
    replace (surface_yield_theta angle) with (surface_yield_theta 1);
      [reflexivity | unfold surface_yield_theta; minmax_lra].
  - intros angle Hgt. unfold surface_yield_f.
    replace (surface_yield_theta angle) with (surface_yield_theta 90);
      [reflexivity | unfold surface_yield_theta; minmax_lra].
Qed.

Lemma coupling_factor_bounds_witness :
  0.55 <= Rmin (surface_yield_f 45) 1 <= 1.
Proof.
  apply (proj1 coupling_factor_bounds 45). lra.
Defined.

(** ** Monotonicity *)

(** C4.  Between two valid inputs with the same density, where diameter,
    velocity and entry angle of the second are each at least those of the
    first, every one of the five radii of the second is at least the
    corresponding radius of the first.  Inputs that differ in exactly one
    of the three parameters are the special cases where the other two are
    equal. *)
Theorem radii_monotone (d1 d2 v1 v2 rho a1 a2 : R) :
  0 < d1 <= d2 -> 0 < v1 <= v2 -> 0 < rho ->
  1 <= a1 -> a1 <= a2 -> a2 <= 90 ->
  exists out1 out2 : gmap string R,
    on_calc_effects d1 v1 rho a1 = Ok out1 /\
    on_calc_effects d2 v2 rho a2 = Ok out2 /\
    forall kind : radius_kind,
      exists r1 r2 : R,
        out1 !! radius_key kind = Some r1 /\
        out2 !! radius_key kind = Some r2 /\
        r1 <= r2.
Proof.
  intros Hd Hv Hrho Ha1 Ha Ha2.
  destruct (impact_effects_ok (on_calc_mt d1 v1 rho) a1)
    as (out1 & Hout1 & _ & Hr1).
  destruct (impact_effects_ok (on_calc_mt d2 v2 rho) a2)
    as (out2 & Hout2 & _ & Hr2).
  exists out1, out2.
  split; [exact Hout1 |]. split; [exact Hout2 |].
  intros kind. eexists _, _.
  split; [apply Hr1 |]. split; [apply Hr2 |].
  assert (Hk : 0 < radius_k kind) by (destruct kind; simpl; lra).
  apply Rmult_le_compat_l; [lra |].
  apply Rpower_third_le.
  - pose proof (surface_yield_mt_floor (on_calc_mt d1 v1 rho) a1). lra.
  - apply surface_yield_mt_mono; [| exact Ha].
    split.
    + apply on_calc_mt_nonneg; lra.
    + apply on_calc_mt_mono; assumption.
Qed.

Lemma radii_monotone_witness :
  exists out1 out2 : gmap string R,
    on_calc_effects 50 20 3000 45 = Ok out1 /\
    on_calc_effects 60 20 3000 45 = Ok out2 /\
    forall kind : radius_kind,
      exists r1 r2 : R,
        out1 !! radius_key kind = Some r1 /\
        out2 !! radius_key kind = Some r2 /\
        r1 <= r2.
Proof.
  apply (radii_monotone 50 60 20 20 3000 45 45); lra.
Defined.

(** ** Totality *)

(** With body parameters of magnitude up to 1e30 the two powers of the
    chain and every intermediate value are far inside the binary64
    range. *)
Lemma chain_in_range (d v rho : R) :
  Rabs d <= 1e30 -> Rabs v <= 1e30 -> Rabs rho <= 1e30 ->
  Rabs ((d / 2) ^ 3) <= 1e90 /\
  (v * 1000.0) ^ 2 <= 1e66 /\
  Rabs (volume_sphere d) <= 1e91 /\
  Rabs (on_calc_mass d rho) <= 1e121 /\
  Rabs (on_calc_energy d v rho) <= 1e187 /\
  Rabs (on_calc_mt d v rho) <= 1e172.
Proof.
  intros Hd Hv Hrho.
  pose proof PI_bounds as [Hlo Hhi].
  assert (Hcube : Rabs ((d / 2) ^ 3) <= 1e90).
  { rewrite <- RPow_abs.
    apply Rle_trans with ((1e30 / 2) ^ 3); [| lra].
    apply pow_incr. split; [apply Rabs_pos |].
    unfold Rdiv. rewrite Rabs_mult, (Rabs_pos_eq (/ 2)) by lra. lra. }
  assert (Hsq : (v * 1000.0) ^ 2 <= 1e66).
  { rewrite <- (Rabs_pos_eq ((v * 1000.0) ^ 2)) by (apply pow2_ge_0).
    rewrite <- RPow_abs.
    apply Rle_trans with ((1e30 * 1000) ^ 2); [| lra].
    apply pow_incr. split; [apply Rabs_pos |].
    rewrite Rabs_mult, (Rabs_pos_eq 1000.0) by lra. lra. }
  assert (Hvol : Rabs (volume_sphere d) <= 1e91).
  { unfold volume_sphere.
    rewrite Rabs_mult, (Rabs_pos_eq (4 / 3 * PI)) by lra.
    pose proof (Rabs_pos ((d / 2) ^ 3)). nra. }
  assert (Hm : Rabs (on_calc_mass d rho) <= 1e121).
  { unfold on_calc_mass, mass_from_diameter. rewrite Rabs_mult.
    pose proof (Rabs_pos rho). pose proof (Rabs_pos (volume_sphere d)).
    apply Rle_trans with (1e30 * 1e91); [| lra].
    apply Rmult_le_compat; assumption. }
  assert (HE : Rabs (on_calc_energy d v rho) <= 1e187).
  { unfold on_calc_energy, kinetic_energy_joules.
    rewrite !Rabs_mult, (Rabs_pos_eq 0.5) by lra.
    rewrite (Rabs_pos_eq ((v * 1000.0) ^ 2)) by (apply pow2_ge_0).
    pose proof (Rabs_pos (on_calc_mass d rho)).
    pose proof (pow2_ge_0 (v * 1000.0)).
    apply Rle_trans with (0.5 * 1e121 * 1e66); [| lra].
    apply Rmult_le_compat; try lra. }
  repeat split; try assumption.
  unfold on_calc_mt, joules_to_megatons_tnt.
  unfold Rdiv. rewrite Rabs_mult, (Rabs_pos_eq (/ 4.184e15)) by lra.
  lra.
Qed.

(** C10.  [impact_effects] is total: for every kinetic yield and every
    angle (non-positive yields and angles outside [[1, 90]] included) it
    returns, the effective surface yield is at least 1e-9, the base of the
    cube root is at least 1e-12, so the fractional power is applied to a
    positive base only, and all five radii are strictly positive.  The
    chain of [on_calc] from diameter, velocity and density (of either sign,
    or zero) is total when their magnitudes are at most 1e30: the powers
    [(d_m/2) ** 3] and [(v_km_s * 1000.0) ** 2] and every intermediate
    value then stay below 1e187 in magnitude, and the five radii are
    strictly positive. *)
Theorem effects_total :
  (forall kinetic_mt angle : R,
      exists (out : gmap string R) (Y : R),
        impact_effects kinetic_mt angle = Ok out /\
        out !! "effective_surface_yield_mt" = Some Y /\
        1e-9 <= Y /\
        forall kind : radius_kind,
          exists r : R, out !! radius_key kind = Some r /\ 0 < r) /\
  (forall yield_mt k : R,
      1e-12 <= Rmax yield_mt 1e-12 /\
      exists c : R,
        float_pow (Rmax yield_mt 1e-12) (1 / 3) = Ok c /\
        0 < c /\
        scaled_radius_km yield_mt k = Ok (k * c)) /\
  (forall d v rho angle : R,
      Rabs d <= 1e30 -> Rabs v <= 1e30 -> Rabs rho <= 1e30 ->
      Rabs ((d / 2) ^ 3) <= 1e90 /\
      (v * 1000.0) ^ 2 <= 1e66 /\
      Rabs (volume_sphere d) <= 1e91 /\
      Rabs (on_calc_mass d rho) <= 1e121 /\
      Rabs (on_calc_energy d v rho) <= 1e187 /\
      Rabs (on_calc_mt d v rho) <= 1e172 /\
      exists out : gmap string R,
        on_calc_effects d v rho angle = Ok out /\
        forall kind : radius_kind,
          exists r : R, out !! radius_key kind = Some r /\ 0 < r).
Proof.
  assert (Hmodel : forall kinetic_mt angle : R,
      exists (out : gmap string R) (Y : R),
        impact_effects kinetic_mt angle = Ok out /\
        out !! "effective_surface_yield_mt" = Some Y /\
        1e-9 <= Y /\
        forall kind : radius_kind,
          exists r : R, out !! radius_key kind = Some r /\ 0 < r).
  { intros kinetic_mt angle.
    destruct (impact_effects_ok kinetic_mt angle) as (out & Hout & HY & Hr).
    exists out, (surface_yield_mt kinetic_mt angle).
    split; [exact Hout |]. split; [exact HY |].
    split; [apply surface_yield_mt_floor |].
    intros kind. eexists. split; [apply Hr |].
    apply Rmult_lt_0_compat; [destruct kind; simpl; lra |].
    apply Rpower_third_pos. }
  split; [exact Hmodel |]. split.
  - intros yield_mt k.
    pose proof (cube_root_base_floor yield_mt) as Hbase.
    split; [exact Hbase |].
    exists (Rpower (Rmax yield_mt 1e-12) (1 / 3)).
    split; [apply float_pow_pos; lra |].
    split; [apply Rpower_third_pos | apply scaled_radius_km_ok].
  - intros d v rho angle Hd Hv Hrho.
    destruct (chain_in_range d v rho Hd Hv Hrho)
      as (H1 & H2 & H3 & H4 & H5 & H6).
    do 6 (split; [assumption |]).
    destruct (Hmodel (on_calc_mt d v rho) angle) as (out & _ & Hout & _ & _ & Hr).
    exists out. split; [exact Hout | exact Hr].
Qed.

Lemma effects_total_witness :
  exists out : gmap string R,
    on_calc_effects 50 20 3000 45 = Ok out /\
    forall kind : radius_kind,
      exists r : R, out !! radius_key kind = Some r /\ 0 < r.
Proof.
  destruct (proj2 (proj2 effects_total) 50 20 3000 45)
    as (_ & _ & _ & _ & _ & _ & Hout).
  - rewrite Rabs_pos_eq; lra.
  - rewrite Rabs_pos_eq; lra.
  - rewrite Rabs_pos_eq; lra.
  - exact Hout.
Defined.

(** ** Classification *)

(** C9.  For every diameter [d > 0] and angle in [[1, 90]] the event is
    "airburst" exactly when [d < 30], or [d < 60] and [angle < 40], and
    "ground" otherwise; the size class is fixed by the breakpoints 10, 50,
    140, 300 and 1000 m, each class holding its lower breakpoint and not
    its upper one. *)
Theorem classification_thresholds (d angle : R) :
  0 < d -> 1 <= angle <= 90 ->
  (guess_event_type d angle = "airburst"
   <-> d < 30 \/ (d < 60 /\ angle < 40)) /\
  (guess_event_type d angle = "ground"
   <-> ~ (d < 30 \/ (d < 60 /\ angle < 40))) /\
  (classify_size d = "<10m" <-> d < 10) /\
  (classify_size d = "10-50m" <-> 10 <= d < 50) /\
  (classify_size d = "50-140m" <-> 50 <= d < 140) /\
  (classify_size d = "140-300m" <-> 140 <= d < 300) /\
  (classify_size d = "300m-1km" <-> 300 <= d < 1000) /\
  (classify_size d = ">1km" <-> 1000 <= d).
Proof.
  intros Hd Hangle.
  split; [| split].
  - unfold guess_event_type.
    destruct (bool_decide_reflect (d < 60));
      destruct (bool_decide_reflect (angle < 40));
      destruct (decide (d < 30)); simpl;
      split; intros; try discriminate; try reflexivity; lra.
  - unfold guess_event_type.
    destruct (bool_decide_reflect (d < 60));
      destruct (bool_decide_reflect (angle < 40));
      destruct (decide (d < 30)); simpl;
      split; intros; try discriminate; try reflexivity; lra.
  - unfold classify_size.
    destruct (decide (d < 10)); [| destruct (decide (d < 50));
      [| destruct (decide (d < 140)); [| destruct (decide (d < 300));
        [| destruct (decide (d < 1000))]]]];
      repeat split; intros; try discriminate; try reflexivity; lra.
Qed.

Lemma classification_thresholds_witness :
  guess_event_type 50 45 = "ground" <-> ~ (50 < 30 \/ (50 < 60 /\ 45 < 40)).
Proof.
  apply (classification_thresholds 50 45); lra.
Defined.

(** * Properties of the ring-map view *)

Import RingsView.

(** ** Decimal brackets *)

Lemma ln_10_pos : 0 < ln 10.
Proof. rewrite <- ln_1. apply ln_increasing; lra. Qed.

Lemma powerRZ_10_exp (z : Z) : powerRZ 10 z = exp (IZR z * ln 10).
Proof. rewrite powerRZ_Rpower by lra. reflexivity. Qed.

(** The exponent [math.floor(math.log10(x))] brackets [x] between two
    consecutive powers of ten. *)
Lemma log10_bracket (x : R) :
  0 < x ->
  powerRZ 10 (Zfloor (ln x / ln 10)) <= x
  < powerRZ 10 (Zfloor (ln x / ln 10) + 1).
Proof.
  intros Hx.
  pose proof ln_10_pos as H10.
  destruct (Zfloor_bound (ln x / ln 10)) as [Hlo Hhi].
  set (e := Zfloor (ln x / ln 10)) in *.
  assert (Hlo' : IZR e * ln 10 <= ln x).
  { apply (Rmult_le_compat_r (ln 10)) in Hlo; [| lra].
    replace (ln x / ln 10 * ln 10) with (ln x) in Hlo by (field; lra).
    exact Hlo. }
  assert (Hhi' : ln x < IZR (e + 1) * ln 10).
  { rewrite plus_IZR.
    apply (Rmult_lt_compat_r (ln 10)) in Hhi; [| lra].
    replace (ln x / ln 10 * ln 10) with (ln x) in Hhi by (field; lra).
    exact Hhi. }
  rewrite !powerRZ_10_exp.
  rewrite <- (exp_ln x Hx) at 1 2.
  split.
  - destruct Hlo' as [Hlt | Heq].
    + left. apply exp_increasing. exact Hlt.
    + right. rewrite Heq. reflexivity.
  - apply exp_increasing. exact Hhi'.
Qed.

Lemma log10_bracket_unique (x : R) (z : Z) :
  powerRZ 10 z <= x < powerRZ 10 (z + 1) ->
  Zfloor (ln x / ln 10) = z.
Proof.
  intros [Hlo Hhi].
  pose proof ln_10_pos as H10.
  assert (Hx : 0 < x).
  { pose proof (powerRZ_lt 10 z ltac:(lra)). lra. }
  rewrite !powerRZ_10_exp in *.
  rewrite <- (exp_ln x Hx) in Hlo, Hhi.
  apply Zfloor_eq. split.
  - assert (Hle : IZR z * ln 10 <= ln x).
    { destruct Hlo as [Hlt | Heq].
      - left. apply exp_lt_inv. exact Hlt.
      - right. apply exp_inv. exact Heq. }
    apply (Rmult_le_reg_r (ln 10)); [lra |].
    replace (ln x / ln 10 * ln 10) with (ln x) by (field; lra).
    exact Hle.
  - apply exp_lt_inv in Hhi. rewrite plus_IZR in Hhi.
    apply (Rmult_lt_reg_r (ln 10)); [lra |].
    replace (ln x / ln 10 * ln 10) with (ln x) by (field; lra).
    lra.
Qed.

(** ** The nice-number rounder *)

(** The leading-digit choice of [_nice_step]. *)
Lemma nice_step_positive (x : R) :
  0 < x ->
  let e := Zfloor (ln x / ln 10) in
  let frac := x / powerRZ 10 e in
  let nice :=
    if decide (frac < 1.5) then 1
    else if decide (frac < 3.5) then 2
    else if decide (frac < 7.5) then 5
    else 10 in
  _nice_step x = Ok (nice * powerRZ 10 e) /\ 1 <= frac < 10.
Proof.
  intros Hx e frac nice.
  pose proof (powerRZ_lt 10 e ltac:(lra)) as Hp.
  destruct (log10_bracket x Hx) as [Hlo Hhi]. fold e in Hlo, Hhi.
  rewrite powerRZ_add, powerRZ_1 in Hhi by lra.
  split.
  - unfold _nice_step, log10, py_div.
    destruct (decide (x <= 0)) as [Hle | _]; [lra |].
    destruct (decide (0 < x)) as [_ | Hn]; [| contradiction].
    cbn [mbind result_bind mret result_ret]. fold e.
    destruct (decide (powerRZ 10 e = 0)) as [Hz | _]; [lra |].
    cbn [mbind result_bind mret result_ret]. fold frac. unfold nice.
    repeat destruct (decide _); f_equal; lra.
  - unfold frac. split.
    + apply (Rmult_le_reg_r (powerRZ 10 e)); [exact Hp |].
      replace (x / powerRZ 10 e * powerRZ 10 e) with x by (field; lra).
      lra.
    + apply (Rmult_lt_reg_r (powerRZ 10 e)); [exact Hp |].
      replace (x / powerRZ 10 e * powerRZ 10 e) with x by (field; lra).
      lra.
Qed.

Lemma nice_step_pos (x : R) :
  exists s : R, _nice_step x = Ok s /\ 0 < s.
Proof.
  destruct (decide (x <= 0)) as [Hle | Hgt].
  - exists 1.0. split; [| lra].
    unfold _nice_step. destruct (decide (x <= 0)); [reflexivity | lra].
  - destruct (nice_step_positive x ltac:(lra)) as [Hs _].
    eexists. split; [exact Hs |].
    apply Rmult_lt_0_compat; [| apply powerRZ_lt; lra].
    repeat destruct (decide _); lra.
Qed.

(** ** Running in the [result] monad *)

Lemma bind_Ok_inv {A B : Type} (c : result A) (k : A -> result B) (b : B) :
  c ≫= k = Ok b -> exists a : A, c = Ok a /\ k a = Ok b.
Proof.
  destruct c as [a | e |]; cbn; intros Hb; try discriminate.
  exists a. split; [reflexivity | exact Hb].
Qed.

Lemma nat_above (r : R) : exists n : nat, r < INR n.
Proof.
  destruct (INR_archimed 1 r ltac:(lra)) as [n Hn].
  exists n. lra.
Qed.

(** ** The two grid loops *)

Lemma vertical_lines_complete (fuel : nat) :
  forall (x0 half_w_km step_km px_per_km cx : R) (H : Z),
    0 < step_km ->
    half_w_km + 1e-9 - x0 < INR fuel * step_km ->
    exists l : list item,
      vertical_lines fuel x0 half_w_km step_km px_per_km cx H = Ok l.
Proof.
  induction fuel as [| fuel IH]; intros x0 half step ppk cx H Hstep Hfuel.
  - simpl in *. destruct (decide (x0 <= half + 1e-9)); [lra |].
    eexists; reflexivity.
  - rewrite S_INR in Hfuel. simpl.
    destruct (decide (x0 <= half + 1e-9)); [| eexists; reflexivity].
    destruct (IH (x0 + step) half step ppk cx H Hstep) as [l Hl]; [lra |].
    rewrite Hl. eexists; reflexivity.
Qed.

Lemma horizontal_lines_complete (fuel : nat) :
  forall (y0 half_h_km step_km px_per_km cy : R) (W : Z),
    0 < step_km ->
    half_h_km + 1e-9 - y0 < INR fuel * step_km ->
    exists l : list item,
      horizontal_lines fuel y0 half_h_km step_km px_per_km cy W = Ok l.
Proof.
  induction fuel as [| fuel IH]; intros y0 half step ppk cy W Hstep Hfuel.
  - simpl in *. destruct (decide (y0 <= half + 1e-9)); [lra |].
    eexists; reflexivity.
  - rewrite S_INR in Hfuel. simpl.
    destruct (decide (y0 <= half + 1e-9)); [| eexists; reflexivity].
    destruct (IH (y0 + step) half step ppk cy W Hstep) as [l Hl]; [lra |].
    rewrite Hl. eexists; reflexivity.
Qed.

Lemma vertical_lines_mono (fuel : nat) :
  forall (fuel' : nat) (x0 half_w_km step_km px_per_km cx : R) (H : Z)
         (l : list item),
    (fuel <= fuel')%nat ->
    vertical_lines fuel x0 half_w_km step_km px_per_km cx H = Ok l ->
    vertical_lines fuel' x0 half_w_km step_km px_per_km cx H = Ok l.
Proof.
  induction fuel as [| fuel IH];
    intros fuel' x0 half step ppk cx H l Hle Hrun.
  - simpl in Hrun. destruct (decide (x0 <= half + 1e-9)) as [Hg | Hg];
      [discriminate |].
    destruct fuel'; simpl; destruct (decide (x0 <= half + 1e-9));
      try contradiction; exact Hrun.
  - destruct fuel' as [| fuel']; [lia |].
    simpl in *. destruct (decide (x0 <= half + 1e-9)); [| exact Hrun].
    apply bind_Ok_inv in Hrun as (rest & Hrest & Hret).
    rewrite (IH fuel' _ _ _ _ _ _ rest ltac:(lia) Hrest). exact Hret.
Qed.

Lemma horizontal_lines_mono (fuel : nat) :
  forall (fuel' : nat) (y0 half_h_km step_km px_per_km cy : R) (W : Z)
         (l : list item),
    (fuel <= fuel')%nat ->
    horizontal_lines fuel y0 half_h_km step_km px_per_km cy W = Ok l ->
    horizontal_lines fuel' y0 half_h_km step_km px_per_km cy W = Ok l.
Proof.
  induction fuel as [| fuel IH];
    intros fuel' y0 half step ppk cy W l Hle Hrun.
  - simpl in Hrun. destruct (decide (y0 <= half + 1e-9)) as [Hg | Hg];
      [discriminate |].
    destruct fuel'; simpl; destruct (decide (y0 <= half + 1e-9));
      try contradiction; exact Hrun.
  - destruct fuel' as [| fuel']; [lia |].
    simpl in *. destruct (decide (y0 <= half + 1e-9)); [| exact Hrun].
    apply bind_Ok_inv in Hrun as (rest & Hrest & Hret).
    rewrite (IH fuel' _ _ _ _ _ _ rest ltac:(lia) Hrest). exact Hret.
Qed.

(** Every offset [x0 + i * step_km] up to the bound gets its line. *)
Lemma vertical_lines_In (fuel : nat) :
  forall (x0 half_w_km step_km px_per_km cx : R) (H : Z) (l : list item),
    0 <= step_km ->
    vertical_lines fuel x0 half_w_km step_km px_per_km cx H = Ok l ->
    forall (i : nat) (x : R),
      x0 + INR i * step_km <= half_w_km + 1e-9 ->
      x = cx + (x0 + INR i * step_km) * px_per_km ->
      In (Line x 0 x (IZR H) grid_pen) l.
Proof.
  induction fuel as [| fuel IH];
    intros x0 half step ppk cx H l Hstep Hrun i x Hi Hx.
  - simpl in Hrun. pose proof (pos_INR i).
    destruct (decide (x0 <= half + 1e-9)); [discriminate | nra].
  - simpl in Hrun. pose proof (pos_INR i).
    destruct (decide (x0 <= half + 1e-9)); [| nra].
    apply bind_Ok_inv in Hrun as (rest & Hrest & Hret).
    cbn in Hret. injection Hret as <-.
    destruct i as [| i].
    + left. simpl in Hx. f_equal; lra.
    + right. apply in_or_app. right.
      rewrite S_INR in Hi, Hx.
      apply (IH _ _ _ _ _ _ _ Hstep Hrest i x); lra.
Qed.

(** Every offset [y0 + i * step_km] up to the bound gets its line, at a
    pixel row that decreases as the offset grows. *)
Lemma horizontal_lines_In (fuel : nat) :
  forall (y0 half_h_km step_km px_per_km cy : R) (W : Z) (l : list item),
    0 <= step_km ->
    horizontal_lines fuel y0 half_h_km step_km px_per_km cy W = Ok l ->
    forall (i : nat) (y : R),
      y0 + INR i * step_km <= half_h_km + 1e-9 ->
      y = cy - (y0 + INR i * step_km) * px_per_km ->
      In (Line 0 y (IZR W) y grid_pen) l.
Proof.
  induction fuel as [| fuel IH];
    intros y0 half step ppk cy W l Hstep Hrun i y Hi Hy.
  - simpl in Hrun. pose proof (pos_INR i).
    destruct (decide (y0 <= half + 1e-9)); [discriminate | nra].
  - simpl in Hrun. pose proof (pos_INR i).
    destruct (decide (y0 <= half + 1e-9)); [| nra].
    apply bind_Ok_inv in Hrun as (rest & Hrest & Hret).
    cbn in Hret. injection Hret as <-.
    destruct i as [| i].
    + left. simpl in Hy. f_equal; lra.
    + right. apply in_or_app. right.
      rewrite S_INR in Hi, Hy.
      apply (IH _ _ _ _ _ _ _ Hstep Hrest i y); lra.
Qed.

(** ** The auto-fit scale *)


Lemma max_default_attained (l : list R) (d : R) :
  l <> [] -> In (max_default l d) l.
Proof.
  destruct l as [| x l]; [congruence | intros _]. simpl.
  revert x. induction l as [| y l IH]; intros x; simpl.
  - left. reflexivity.
  - destruct (IH (Rmax x y)) as [Heq | Hin].
    + rewrite <- Heq. unfold Rmax. destruct (Rle_dec x y); auto.
    + right. right. exact Hin.
Qed.


Lemma divisor_floor (v : view) :
  1e-9 * SAFE_MARGIN <= Rmax (redraw_Rmax_km v) 1e-9 * SAFE_MARGIN.
Proof.
  pose proof (Rmax_r (redraw_Rmax_km v) 1e-9).
  unfold SAFE_MARGIN. lra.
Qed.

Lemma redraw_px_per_km_ok (v : view) :
  redraw_px_per_km v
  = Ok (IZR (Z.min (width v) (height v)) / 2
        / (Rmax (redraw_Rmax_km v) 1e-9 * SAFE_MARGIN) * zoom v).
Proof.
  unfold redraw_px_per_km, py_div.
  pose proof (divisor_floor v). unfold SAFE_MARGIN in *.
  destruct (decide _) as [Hz | _]; [lra | reflexivity].
Qed.

Lemma px_per_km_pos (v : view) :
  (0 < width v)%Z -> (0 < height v)%Z -> 0 < zoom v ->
  0 < IZR (Z.min (width v) (height v)) / 2
      / (Rmax (redraw_Rmax_km v) 1e-9 * SAFE_MARGIN) * zoom v.
Proof.
  intros HW HH Hz.
  pose proof (divisor_floor v) as Hd. unfold SAFE_MARGIN in *.
  assert (Hm : 0 < IZR (Z.min (width v) (height v))).
  { apply IZR_lt. lia. }
  apply Rmult_lt_0_compat; [| exact Hz].
  apply Rdiv_lt_0_compat; lra.
Qed.

Lemma grid_start_ok (half_km step_km : R) :
  0 < step_km ->
  grid_start half_km step_km
  = Ok (- IZR (Zfloor (half_km / step_km)) * step_km).
Proof.
  intros Hs. unfold grid_start, py_div.
  destruct (decide (step_km = 0)); [lra | reflexivity].
Qed.

(** ** What [redraw] draws *)

(** The items after the grid: scale bar, rings, centre marker, legend. *)
Lemma redraw_runs (v : view) :
  (0 < width v)%Z -> (0 < height v)%Z -> 0 < zoom v ->
  exists px_per_km km_per_px step_km km_len : R,
    redraw_px_per_km v = Ok px_per_km /\ 0 < px_per_km /\
    py_div 1.0 px_per_km = Ok km_per_px /\ km_per_px = 1 / px_per_km /\
    _nice_step (120 * km_per_px) = Ok step_km /\ 0 < step_km /\
    _nice_step (150 * km_per_px) = Ok km_len /\ 0 < km_len /\
    let cx := IZR (width v) / 2 + pan_dx v in
    let cy := IZR (height v) / 2 + pan_dy v in
    let half_w_km := IZR (width v) / 2 * km_per_px in
    let half_h_km := IZR (height v) / 2 * km_per_px in
    let x0 := - IZR (Zfloor (half_w_km / step_km)) * step_km in
    let y0 := - IZR (Zfloor (half_h_km / step_km)) * step_km in
    exists fuel0 : nat,
      forall fuel : nat,
        (fuel0 <= fuel)%nat ->
        exists vlines hlines : list item,
          vertical_lines fuel x0 half_w_km step_km px_per_km cx (height v)
          = Ok vlines /\
          horizontal_lines fuel y0 half_h_km step_km px_per_km cy (width v)
          = Ok hlines /\
          redraw fuel v
          = Ok (set_scene
                  (vlines ++ hlines ++ scale_bar km_len px_per_km (height v)
                   ++ rings v px_per_km cx cy
                   ++ [ Ellipse (cx - 5) (cy - 5) 10 10 (Pen "transparent" 1)
                                (Brush "#3291ff" 255) ]
                   ++ legend_items 10 legend) v).
Proof.
  intros HW HH Hz.
  pose proof (px_per_km_pos v HW HH Hz) as Hppk.
  set (ppk := IZR (Z.min (width v) (height v)) / 2
              / (Rmax (redraw_Rmax_km v) 1e-9 * SAFE_MARGIN) * zoom v) in *.
  assert (Hkpp : py_div 1.0 ppk = Ok (1 / ppk)).
  { unfold py_div. destruct (decide (ppk = 0)); [lra |].
    f_equal. lra. }
  destruct (nice_step_pos (120 * (1 / ppk))) as (step & Hstep & Hstep_pos).
  destruct (nice_step_pos (150 * (1 / ppk))) as (km_len & Hlen & Hlen_pos).
  exists ppk, (1 / ppk), step, km_len.
  split; [apply redraw_px_per_km_ok |].
  do 7 (split; [first [assumption | reflexivity] |]).
  intros cx cy half_w half_h x0 y0.
  destruct (nat_above ((half_w + 1e-9 - x0) / step)) as [n1 Hn1].
  destruct (nat_above ((half_h + 1e-9 - y0) / step)) as [n2 Hn2].
  exists (Nat.max n1 n2). intros fuel Hfuel.
  assert (Hf1 : half_w + 1e-9 - x0 < INR fuel * step).
  { apply (Rmult_lt_compat_r step) in Hn1; [| lra].
    replace ((half_w + 1e-9 - x0) / step * step)
      with (half_w + 1e-9 - x0) in Hn1 by (field; lra).
    assert (INR n1 <= INR fuel) by (apply le_INR; lia). nra. }
  assert (Hf2 : half_h + 1e-9 - y0 < INR fuel * step).
  { apply (Rmult_lt_compat_r step) in Hn2; [| lra].
    replace ((half_h + 1e-9 - y0) / step * step)
      with (half_h + 1e-9 - y0) in Hn2 by (field; lra).
    assert (INR n2 <= INR fuel) by (apply le_INR; lia). nra. }
  destruct (vertical_lines_complete fuel x0 half_w step ppk cx (height v)
              Hstep_pos Hf1) as [vl Hvl].
  destruct (horizontal_lines_complete fuel y0 half_h step ppk cy (width v)
              Hstep_pos Hf2) as [hl Hhl].
  exists vl, hl. split; [exact Hvl |]. split; [exact Hhl |].
  unfold redraw. cbv zeta.
  change (width (set_scene [] v)) with (width v).
  change (height (set_scene [] v)) with (height v).
  change (pan_dx (set_scene [] v)) with (pan_dx v).
  change (pan_dy (set_scene [] v)) with (pan_dy v).
  change (redraw_px_per_km (set_scene [] v)) with (redraw_px_per_km v).
  rewrite (bool_decide_eq_false_2 (width v ≤ 0)%Z) by lia.
  rewrite (bool_decide_eq_false_2 (height v ≤ 0)%Z) by lia.
  cbn [orb].
  rewrite redraw_px_per_km_ok. fold ppk.
  cbn [mbind result_bind]. rewrite Hkpp. cbn [mbind result_bind].
  unfold redraw_step_km.
  replace (120.0 * (1 / ppk)) with (120 * (1 / ppk)) by lra.
  rewrite Hstep. cbn [mbind result_bind].
  rewrite !grid_start_ok by exact Hstep_pos. cbn [mbind result_bind].
  fold half_w half_h. fold x0 y0. fold cx cy.
  rewrite Hvl. cbn [mbind result_bind].
  rewrite Hhl. cbn [mbind result_bind].
  replace (150.0 * (1 / ppk)) with (150 * (1 / ppk)) by lra.
  rewrite Hlen. cbn [mbind result_bind mret result_ret].
  reflexivity.
Qed.

Lemma redraw_mono (fuel fuel' : nat) (v v' : view) :
  (fuel <= fuel')%nat -> redraw fuel v = Ok v' -> redraw fuel' v = Ok v'.
Proof.
  intros Hle Hrun. unfold redraw in *. cbv zeta in *.
  destruct (bool_decide _ || bool_decide _); [exact Hrun |].
  apply bind_Ok_inv in Hrun as (ppk & Hppk & Hrun). rewrite Hppk.
  apply bind_Ok_inv in Hrun as (kpp & Hkpp & Hrun).
  cbn [mbind result_bind]. rewrite Hkpp.
  apply bind_Ok_inv in Hrun as (step & Hstep & Hrun).
  cbn [mbind result_bind]. rewrite Hstep.
  apply bind_Ok_inv in Hrun as (x0 & Hx0 & Hrun).
  cbn [mbind result_bind]. rewrite Hx0.
  apply bind_Ok_inv in Hrun as (vl & Hvl & Hrun).
  cbn [mbind result_bind].
  rewrite (vertical_lines_mono fuel fuel' _ _ _ _ _ _ vl Hle Hvl).
  apply bind_Ok_inv in Hrun as (y0 & Hy0 & Hrun).
  cbn [mbind result_bind]. rewrite Hy0.
  apply bind_Ok_inv in Hrun as (hl & Hhl & Hrun).
  cbn [mbind result_bind].
  rewrite (horizontal_lines_mono fuel fuel' _ _ _ _ _ _ hl Hle Hhl).
  exact Hrun.
Qed.

Lemma same_state_refl (v : view) : same_state v v.
Proof. repeat split. Qed.

Lemma same_state_set_scene (s : list item) (v : view) :
  same_state v (set_scene s v).
Proof. repeat split. Qed.

Lemma redraw_no_viewport (fuel : nat) (v : view) :
  (width v <= 0)%Z \/ (height v <= 0)%Z ->
  redraw fuel v = Ok (set_scene [] v).
Proof.
  intros Hvp. unfold redraw. cbv zeta.
  change (width (set_scene [] v)) with (width v).
  change (height (set_scene [] v)) with (height v).
  destruct (bool_decide_reflect (width v ≤ 0)%Z);
    destruct (bool_decide_reflect (height v ≤ 0)%Z);
    try reflexivity.
  lia.
Qed.

(** A view with a positive zoom is always redrawn, given enough fuel, and
    only its scene changes. *)
Lemma redraw_total (v : view) :
  0 < zoom v ->
  exists fuel0 : nat,
    forall fuel : nat,
      (fuel0 <= fuel)%nat ->
      exists v' : view, redraw fuel v = Ok v' /\ same_state v v'.
Proof.
  intros Hz.
  destruct (Z_lt_le_dec 0 (width v)) as [HW | HW];
    [destruct (Z_lt_le_dec 0 (height v)) as [HH | HH] |].
  - destruct (redraw_runs v HW HH Hz)
      as (ppk & kpp & step & len & _ & _ & _ & _ & _ & _ & _ & _ & fuel0 & Hrun).
    exists fuel0. intros fuel Hfuel.
    destruct (Hrun fuel Hfuel) as (vl & hl & _ & _ & Hredraw).
    eexists. split; [exact Hredraw | apply same_state_set_scene].
  - exists 0%nat. intros fuel _. eexists.
    split; [apply redraw_no_viewport; right; exact HH |].
    apply same_state_set_scene.
  - exists 0%nat. intros fuel _. eexists.
    split; [apply redraw_no_viewport; left; exact HW |].
    apply same_state_set_scene.
Qed.


Lemma redraw_converges (v : view) :
  0 < zoom v ->
  exists (fuel0 : nat) (v' : view),
    (forall fuel : nat, (fuel0 <= fuel)%nat -> redraw fuel v = Ok v') /\
    same_state v v'.
Proof.
  intros Hz.
  destruct (redraw_total v Hz) as [fuel0 Hrun].
  destruct (Hrun fuel0 (Nat.le_refl _)) as (v' & Hv' & Hsame).
  exists fuel0, v'. split; [| exact Hsame].
  intros fuel Hfuel. exact (redraw_mono fuel0 fuel v v' Hfuel Hv').
Qed.

(** ** Wheel zoom *)

Lemma wheelEvent_mono (fuel fuel' : nat) (dy : Z) (v v' : view) :
  (fuel <= fuel')%nat ->
  wheelEvent fuel dy v = Ok v' -> wheelEvent fuel' dy v = Ok v'.
Proof.
  intros Hle. unfold wheelEvent.
  destruct (decide (dy = 0)%Z); [auto |].
  apply redraw_mono. exact Hle.
Qed.

Lemma wheel_events_mono (deltas : list Z) :
  forall (fuel fuel' : nat) (v v' : view),
    (fuel <= fuel')%nat ->
    wheel_events fuel deltas v = Ok v' ->
    wheel_events fuel' deltas v = Ok v'.
Proof.
  induction deltas as [| d deltas IH]; intros fuel fuel' v v' Hle Hrun.
  - exact Hrun.
  - simpl in *. apply bind_Ok_inv in Hrun as (v1 & Hv1 & Hrun).
    rewrite (wheelEvent_mono fuel fuel' d v v1 Hle Hv1).
    cbn [mbind result_bind]. exact (IH fuel fuel' v1 v' Hle Hrun).
Qed.

(** One wheel step on a view whose zoom is within bounds. *)
Lemma wheelEvent_step (dy : Z) (v : view) :
  0.2 <= zoom v <= 20 -> dy <> 0%Z ->
  exists (fuel0 : nat) (v' : view),
    (forall fuel : nat, (fuel0 <= fuel)%nat -> wheelEvent fuel dy v = Ok v') /\
    zoom v' = Rmin 20 (Rmax 0.2 (zoom v * wheel_factor dy)) /\
    0.2 <= zoom v' <= 20 /\
    effects v' = effects v /\ lat v' = lat v /\ lon v' = lon v /\
    pan_dx v' = pan_dx v /\ pan_dy v' = pan_dy v /\
    width v' = width v /\ height v' = height v.
Proof.
  intros Hz Hdy.
  set (z := Rmin 20 (Rmax 0.2 (zoom v * wheel_factor dy))).
  assert (Hzb : 0.2 <= z <= 20) by (unfold z; split; minmax_lra).
  destruct (redraw_converges (set_zoom z v)) as (fuel0 & v' & Hrun & Hsame).
  { simpl. lra. }
  exists fuel0, v'.
  destruct Hsame as (He & Hlat & Hlon & Hzoom & Hdx & Hdy' & _ & _ & Hw & Hh).
  simpl in *.
  split.
  - intros fuel Hfuel. unfold wheelEvent.
    destruct (decide (dy = 0)%Z); [contradiction |].
    replace 20.0 with 20 by lra.
    fold z. exact (Hrun fuel Hfuel).
  - rewrite Hzoom. repeat split; try assumption; lra.
Qed.

Lemma pow_1_2_ge_1 (n : nat) : 1 <= 1.2 ^ n.
Proof. apply pow_R1_Rle. lra. Qed.

Lemma pow_1_2_saturates (n : nat) : (17 <= n)%nat -> 20 <= 1.2 ^ n.
Proof.
  intros Hn.
  apply Rle_trans with (1.2 ^ 17).
  - simpl. lra.
  - apply Rle_pow; [lra | exact Hn].
Qed.

Lemma pow_inv_1_2_bounds (n : nat) : 0 < (1 / 1.2) ^ n <= 1.
Proof.
  split.
  - apply pow_lt. lra.
  - induction n as [| n IH]; simpl; [lra |].
    assert (0 < (1 / 1.2) ^ n) by (apply pow_lt; lra). nra.
Qed.

Lemma pow_inv_1_2_saturates (n : nat) :
  (9 <= n)%nat -> (1 / 1.2) ^ n <= 0.2.
Proof.
  intros Hn.
  replace n with (9 + (n - 9))%nat by lia.
  rewrite pow_add.
  pose proof (pow_inv_1_2_bounds (n - 9)) as [Hpos Hle].
  assert (H9 : 0 < (1 / 1.2) ^ 9 <= 0.2) by (simpl; split; lra).
  nra.
Qed.

(** A run of zoom-in steps. *)
Lemma wheel_events_in (deltas : list Z) :
  forall v : view,
    0.2 <= zoom v <= 20 ->
    Forall (fun d => (d > 0)%Z) deltas ->
    exists (fuel0 : nat) (v' : view),
      (forall fuel : nat,
          (fuel0 <= fuel)%nat -> wheel_events fuel deltas v = Ok v') /\
      zoom v' = Rmin 20 (zoom v * 1.2 ^ length deltas).
Proof.
  induction deltas as [| d deltas IH]; intros v Hz Hpos.
  - exists 0%nat, v. split; [intros; reflexivity |].
    simpl. minmax_lra.
  - inversion Hpos as [| ? ? Hd Hrest]; subst.
    destruct (wheelEvent_step d v Hz ltac:(lia))
      as (f1 & v1 & Hrun1 & Hz1 & Hb1 & _).
    destruct (IH v1 Hb1 Hrest) as (f2 & v' & Hrun2 & Hz2).
    exists (Nat.max f1 f2), v'. split.
    + intros fuel Hfuel. simpl.
      rewrite (Hrun1 fuel ltac:(lia)). cbn [mbind result_bind].
      apply Hrun2. lia.
    + rewrite Hz2, Hz1. unfold wheel_factor.
      destruct (decide (d > 0)%Z); [| contradiction].
      pose proof (pow_1_2_ge_1 (length deltas)) as Hp.
      simpl length. simpl pow.
      set (p := 1.2 ^ length deltas) in *.
      unfold Rmin, Rmax; repeat destruct (Rle_dec _ _); nra.
Qed.

(** A run of zoom-out steps. *)
Lemma wheel_events_out (deltas : list Z) :
  forall v : view,
    0.2 <= zoom v <= 20 ->
    Forall (fun d => (d < 0)%Z) deltas ->
    exists (fuel0 : nat) (v' : view),
      (forall fuel : nat,
          (fuel0 <= fuel)%nat -> wheel_events fuel deltas v = Ok v') /\
      zoom v' = Rmax 0.2 (zoom v * (1 / 1.2) ^ length deltas).
Proof.
  induction deltas as [| d deltas IH]; intros v Hz Hneg.
  - exists 0%nat, v. split; [intros; reflexivity |].
    simpl. minmax_lra.
  - inversion Hneg as [| ? ? Hd Hrest]; subst.
    destruct (wheelEvent_step d v Hz ltac:(lia))
      as (f1 & v1 & Hrun1 & Hz1 & Hb1 & _).
    destruct (IH v1 Hb1 Hrest) as (f2 & v' & Hrun2 & Hz2).
    exists (Nat.max f1 f2), v'. split.
    + intros fuel Hfuel. simpl.
      rewrite (Hrun1 fuel ltac:(lia)). cbn [mbind result_bind].
      apply Hrun2. lia.
    + rewrite Hz2, Hz1. unfold wheel_factor.
      destruct (decide (d > 0)%Z); [lia |].
      pose proof (pow_inv_1_2_bounds (length deltas)) as Hp.
      simpl length. simpl pow.
      set (p := (1 / 1.2) ^ length deltas) in *.
      unfold Rmin, Rmax; repeat destruct (Rle_dec _ _); nra.
Qed.

(** C6.  On a view whose zoom is in [[0.2, 20]], a wheel event with a
    positive delta multiplies the zoom by 1.2 and one with a negative delta
    by 1/1.2, the product clamped into [[0.2, 20]], and nothing else but
    the scene changes; a wheel event with delta zero returns the view as it
    is.  From zoom 1, a run of [n] zoom-in events ends at
    [min(20, 1.2^n)], which is exactly 20 from the 17th event on, and a run
    of [n] zoom-out events ends at [max(0.2, (1/1.2)^n)], which is exactly
    0.2 from the 9th event on; the zoom never leaves [[0.2, 20]]. *)
Theorem wheel_zoom_clamped :
  (forall (v : view) (dy : Z),
      0.2 <= zoom v <= 20 -> dy <> 0%Z ->
      exists (fuel0 : nat) (v' : view),
        (forall fuel : nat,
            (fuel0 <= fuel)%nat -> wheelEvent fuel dy v = Ok v') /\
        ((dy > 0)%Z -> zoom v' = Rmin 20 (Rmax 0.2 (zoom v * 1.2))) /\
        ((dy < 0)%Z -> zoom v' = Rmin 20 (Rmax 0.2 (zoom v * (1 / 1.2)))) /\
        0.2 <= zoom v' <= 20 /\
        effects v' = effects v /\ lat v' = lat v /\ lon v' = lon v /\
        pan_dx v' = pan_dx v /\ pan_dy v' = pan_dy v /\
        width v' = width v /\ height v' = height v) /\
  (forall (fuel : nat) (v : view), wheelEvent fuel 0 v = Ok v) /\
  (forall (v : view) (deltas : list Z),
      zoom v = 1 ->
      Forall (fun d => (d > 0)%Z) deltas ->
      exists (fuel0 : nat) (v' : view),
        (forall fuel : nat,
            (fuel0 <= fuel)%nat -> wheel_events fuel deltas v = Ok v') /\
        zoom v' = Rmin 20 (1.2 ^ length deltas) /\
        0.2 <= zoom v' <= 20 /\
        ((17 <= length deltas)%nat -> zoom v' = 20)) /\
  (forall (v : view) (deltas : list Z),
      zoom v = 1 ->
      Forall (fun d => (d < 0)%Z) deltas ->
      exists (fuel0 : nat) (v' : view),
        (forall fuel : nat,
            (fuel0 <= fuel)%nat -> wheel_events fuel deltas v = Ok v') /\
        zoom v' = Rmax 0.2 ((1 / 1.2) ^ length deltas) /\
        0.2 <= zoom v' <= 20 /\
        ((9 <= length deltas)%nat -> zoom v' = 0.2)).
Proof.
  split; [| split; [| split]].
  - intros v dy Hz Hdy.
    destruct (wheelEvent_step dy v Hz Hdy)
      as (fuel0 & v' & Hrun & Hzoom & Hb & Hrest).
    exists fuel0, v'. split; [exact Hrun |].
    unfold wheel_factor in Hzoom.
    split; [| split; [| split; [exact Hb | exact Hrest]]].
    + intros Hpos. destruct (decide (dy > 0)%Z); [exact Hzoom | contradiction].
    + intros Hneg. destruct (decide (dy > 0)%Z); [lia | exact Hzoom].
  - intros fuel v. reflexivity.
  - intros v deltas Hz Hpos.
    destruct (wheel_events_in deltas v ltac:(lra) Hpos)
      as (fuel0 & v' & Hrun & Hzoom).
    rewrite Hz, Rmult_1_l in Hzoom.
    exists fuel0, v'. split; [exact Hrun |]. split; [exact Hzoom |].
    pose proof (pow_1_2_ge_1 (length deltas)).
    split; [rewrite Hzoom; split; minmax_lra |].
    intros Hn. pose proof (pow_1_2_saturates _ Hn).
    rewrite Hzoom. minmax_lra.
  - intros v deltas Hz Hneg.
    destruct (wheel_events_out deltas v ltac:(lra) Hneg)
      as (fuel0 & v' & Hrun & Hzoom).
    rewrite Hz, Rmult_1_l in Hzoom.
    exists fuel0, v'. split; [exact Hrun |]. split; [exact Hzoom |].
    pose proof (pow_inv_1_2_bounds (length deltas)).
    split; [rewrite Hzoom; split; minmax_lra |].
    intros Hn. pose proof (pow_inv_1_2_saturates _ Hn).
    rewrite Hzoom. minmax_lra.
Qed.

Lemma wheel_zoom_clamped_witness :
  exists (fuel0 : nat) (v' : view),
    (forall fuel : nat,
        (fuel0 <= fuel)%nat ->
        wheel_events fuel (repeat 120%Z 17) (init 800 600) = Ok v') /\
    zoom v' = 20.
Proof.
  destruct (proj1 (proj2 (proj2 wheel_zoom_clamped))
              (init 800 600) (repeat 120%Z 17))
    as (fuel0 & v' & Hrun & _ & _ & Hsat).
  - simpl. lra.
  - repeat constructor.
  - exists fuel0, v'. split; [exact Hrun |].
    apply Hsat. simpl. lia.
Defined.

(** ** Which grid lines are drawn *)

Lemma multiple_index (k : Z) (half_km step_km : R) :
  0 < step_km ->
  - half_km <= IZR k * step_km <= half_km ->
  let n := Zfloor (half_km / step_km) in
  (- n <= k <= n)%Z /\
  - IZR n * step_km + INR (Z.to_nat (k + n)) * step_km = IZR k * step_km.
Proof.
  intros Hs [Hlo Hhi] n.
  assert (Hk : (k <= n)%Z).
  { apply Zfloor_lub. apply (Rmult_le_reg_r step_km); [exact Hs |].
    replace (half_km / step_km * step_km) with half_km by (field; lra).
    exact Hhi. }
  assert (Hk' : (- k <= n)%Z).
  { apply Zfloor_lub. rewrite opp_IZR.
    apply (Rmult_le_reg_r step_km); [exact Hs |].
    replace (half_km / step_km * step_km) with half_km by (field; lra).
    lra. }
  split; [lia |].
  rewrite INR_IZR_INZ, Z2Nat.id by lia.
  rewrite plus_IZR. lra.
Qed.

Lemma floor_multiple_le (half_km step_km : R) :
  0 < step_km -> IZR (Zfloor (half_km / step_km)) * step_km <= half_km.
Proof.
  intros Hs.
  destruct (Zfloor_bound (half_km / step_km)) as [Hlo _].
  apply (Rmult_le_compat_r step_km) in Hlo; [| lra].
  replace (half_km / step_km * step_km) with half_km in Hlo by (field; lra).
  exact Hlo.
Qed.

(** Starting where [redraw] starts, the first loop draws a line at every
    multiple of the step within the half-width on either side. *)
Lemma vertical_lines_multiples (fuel : nat)
    (half_w_km step_km px_per_km cx : R) (H : Z) (l : list item) :
  0 < step_km ->
  vertical_lines fuel (- IZR (Zfloor (half_w_km / step_km)) * step_km)
                 half_w_km step_km px_per_km cx H = Ok l ->
  forall (k : Z) (x : R),
    - half_w_km <= IZR k * step_km <= half_w_km ->
    x = cx + IZR k * step_km * px_per_km ->
    In (Line x 0 x (IZR H) grid_pen) l.
Proof.
  intros Hs Hrun k x Hk Hx.
  destruct (multiple_index k half_w_km step_km Hs Hk) as [_ Hi].
  apply (vertical_lines_In fuel _ _ _ _ _ _ l (Rlt_le _ _ Hs) Hrun
           (Z.to_nat (k + Zfloor (half_w_km / step_km))) x).
  - rewrite Hi. lra.
  - rewrite Hi. exact Hx.
Qed.

Lemma horizontal_lines_multiples (fuel : nat)
    (half_h_km step_km px_per_km cy : R) (W : Z) (l : list item) :
  0 < step_km ->
  horizontal_lines fuel (- IZR (Zfloor (half_h_km / step_km)) * step_km)
                   half_h_km step_km px_per_km cy W = Ok l ->
  forall (k : Z) (y : R),
    - half_h_km <= IZR k * step_km <= half_h_km ->
    y = cy - IZR k * step_km * px_per_km ->
    In (Line 0 y (IZR W) y grid_pen) l.
Proof.
  intros Hs Hrun k y Hk Hy.
  destruct (multiple_index k half_h_km step_km Hs Hk) as [_ Hi].
  apply (horizontal_lines_In fuel _ _ _ _ _ _ l (Rlt_le _ _ Hs) Hrun
           (Z.to_nat (k + Zfloor (half_h_km / step_km))) y).
  - rewrite Hi. lra.
  - rewrite Hi. exact Hy.
Qed.

(** No vertical line is drawn left of the first one. *)
Lemma vertical_lines_leftmost (fuel : nat) :
  forall (x0 half_w_km step_km px_per_km cx : R) (H : Z) (l : list item),
    0 <= step_km -> 0 <= px_per_km ->
    vertical_lines fuel x0 half_w_km step_km px_per_km cx H = Ok l ->
    forall (x1 y1 x2 y2 : R) (p : pen),
      In (Line x1 y1 x2 y2 p) l -> cx + x0 * px_per_km <= x1.
Proof.
  induction fuel as [| fuel IH];
    intros x0 half step ppk cx H l Hs Hp Hrun x1 y1 x2 y2 p Hin.
  - simpl in Hrun. destruct (decide (x0 <= half + 1e-9));
      [discriminate |]. injection Hrun as <-. destruct Hin.
  - simpl in Hrun. destruct (decide (x0 <= half + 1e-9));
      [| injection Hrun as <-; destruct Hin].
    apply bind_Ok_inv in Hrun as (rest & Hrest & Hret).
    cbn [mret result_ret] in Hret. injection Hret as <-.
    destruct Hin as [Heq | Hin].
    + injection Heq as <- _ _ _. lra.
    + apply in_app_or in Hin as [Hin | Hin].
      * destruct (decide (Rabs x0 > 1e-6)); [| destruct Hin].
        destruct Hin as [Heq | []]. discriminate.
      * pose proof (IH _ _ _ _ _ _ _ Hs Hp Hrest _ _ _ _ _ Hin). nra.
Qed.

(** Every line of the second loop starts at the left edge. *)
Lemma horizontal_lines_left_edge (fuel : nat) :
  forall (y0 half_h_km step_km px_per_km cy : R) (W : Z) (l : list item),
    horizontal_lines fuel y0 half_h_km step_km px_per_km cy W = Ok l ->
    forall (x1 y1 x2 y2 : R) (p : pen),
      In (Line x1 y1 x2 y2 p) l -> x1 = 0.
Proof.
  induction fuel as [| fuel IH];
    intros y0 half step ppk cy W l Hrun x1 y1 x2 y2 p Hin.
  - simpl in Hrun. destruct (decide (y0 <= half + 1e-9));
      [discriminate |]. injection Hrun as <-. destruct Hin.
  - simpl in Hrun. destruct (decide (y0 <= half + 1e-9));
      [| injection Hrun as <-; destruct Hin].
    apply bind_Ok_inv in Hrun as (rest & Hrest & Hret).
    cbn [mret result_ret] in Hret. injection Hret as <-.
    destruct Hin as [Heq | Hin].
    + injection Heq as <- _ _ _. reflexivity.
    + apply in_app_or in Hin as [Hin | Hin].
      * destruct (decide (Rabs y0 > 1e-6)); [| destruct Hin].
        destruct Hin as [Heq | []]. discriminate.
      * exact (IH _ _ _ _ _ _ _ Hrest _ _ _ _ _ Hin).
Qed.

(** The scene of a completed [redraw], whatever the fuel it was given. *)
Lemma redraw_scene (fuel : nat) (v v' : view) :
  (0 < width v)%Z -> (0 < height v)%Z -> 0 < zoom v ->
  redraw fuel v = Ok v' ->
  exists px_per_km step_km km_len : R,
    redraw_px_per_km v = Ok px_per_km /\ 0 < px_per_km /\
    _nice_step (120 * (1 / px_per_km)) = Ok step_km /\ 0 < step_km /\
    _nice_step (150 * (1 / px_per_km)) = Ok km_len /\ 0 < km_len /\
    let cx := IZR (width v) / 2 + pan_dx v in
    let cy := IZR (height v) / 2 + pan_dy v in
    let half_w_km := IZR (width v) / 2 * (1 / px_per_km) in
    let half_h_km := IZR (height v) / 2 * (1 / px_per_km) in
    let x0 := - IZR (Zfloor (half_w_km / step_km)) * step_km in
    let y0 := - IZR (Zfloor (half_h_km / step_km)) * step_km in
    exists (fuel' : nat) (vlines hlines : list item),
      vertical_lines fuel' x0 half_w_km step_km px_per_km cx (height v)
      = Ok vlines /\
      horizontal_lines fuel' y0 half_h_km step_km px_per_km cy (width v)
      = Ok hlines /\
      scene v'
      = vlines ++ hlines ++ scale_bar km_len px_per_km (height v)
        ++ rings v px_per_km cx cy
        ++ [ Ellipse (cx - 5) (cy - 5) 10 10 (Pen "transparent" 1)
                     (Brush "#3291ff" 255) ]
        ++ legend_items 10 legend.
Proof.
  intros HW HH Hz Hrun.
  destruct (redraw_runs v HW HH Hz)
    as (ppk & kpp & step & len & Hppk & Hppk_pos & _ & -> & Hstep & Hstep_pos
        & Hlen & Hlen_pos & fuel0 & Hall).
  exists ppk, step, len.
  do 6 (split; [assumption |]).
  intros cx cy half_w half_h x0 y0.
  destruct (Hall (Nat.max fuel fuel0) ltac:(lia))
    as (vl & hl & Hvl & Hhl & Hredraw).
  rewrite (redraw_mono fuel (Nat.max fuel fuel0) v v' ltac:(lia) Hrun)
    in Hredraw.
  injection Hredraw as ->.
  exists (Nat.max fuel fuel0), vl, hl.
  split; [exact Hvl |]. split; [exact Hhl |]. reflexivity.
Qed.

Lemma within_half_km (t half_px px_per_km : R) :
  0 < px_per_km ->
  - half_px <= t * px_per_km <= half_px ->
  - (half_px * (1 / px_per_km)) <= t <= half_px * (1 / px_per_km).
Proof.
  intros Hp [Hlo Hhi].
  assert (Hinv : half_px * (1 / px_per_km) * px_per_km = half_px)
    by (field; lra).
  split; apply (Rmult_le_reg_r px_per_km); try exact Hp; lra.
Qed.

(** C8, as the code has it.  For every view (any pan offset, any positive
    zoom) and viewport of width [W] and height [H], [redraw] completes and
    draws a vertical grid line at every integer multiple of the grid step
    whose pixel x-coordinate lies within [[pan_dx, W + pan_dx]], and a
    horizontal line at every multiple whose pixel y-coordinate lies within
    [[pan_dy, H + pan_dy]], the row decreasing as the offset grows (north
    is up).  With a zero pan offset these windows are the viewport
    [[0, W]] and [[0, H]]. *)
Theorem grid_lines_follow_centre (v : view) :
  (0 < width v)%Z -> (0 < height v)%Z -> 0 < zoom v ->
  exists px_per_km step_km : R,
    redraw_px_per_km v = Ok px_per_km /\ 0 < px_per_km /\
    redraw_step_km (1 / px_per_km) = Ok step_km /\ 0 < step_km /\
    (exists (fuel0 : nat) (v' : view),
        forall fuel : nat, (fuel0 <= fuel)%nat -> redraw fuel v = Ok v') /\
    forall (fuel : nat) (v' : view),
      redraw fuel v = Ok v' ->
      (forall (k : Z) (x : R),
          x = IZR (width v) / 2 + pan_dx v + IZR k * step_km * px_per_km ->
          pan_dx v <= x <= IZR (width v) + pan_dx v ->
          In (Line x 0 x (IZR (height v)) grid_pen) (scene v')) /\
      (forall (k : Z) (y : R),
          y = IZR (height v) / 2 + pan_dy v - IZR k * step_km * px_per_km ->
          pan_dy v <= y <= IZR (height v) + pan_dy v ->
          In (Line 0 y (IZR (width v)) y grid_pen) (scene v')).
Proof.
  intros HW HH Hz.
  destruct (redraw_converges v Hz) as (fuel0 & v0 & Hconv & _).
  destruct (redraw_scene fuel0 v v0 HW HH Hz (Hconv fuel0 (Nat.le_refl _)))
    as (ppk & step & len & Hppk & Hppk_pos & Hstep & Hstep_pos & _).
  exists ppk, step.
  split; [exact Hppk |]. split; [exact Hppk_pos |].
  split.
  { unfold redraw_step_km.
    replace (120.0 * (1 / ppk)) with (120 * (1 / ppk)) by lra. exact Hstep. }
  split; [exact Hstep_pos |].
  split; [exists fuel0, v0; exact Hconv |].
  intros fuel v' Hrun.
  destruct (redraw_scene fuel v v' HW HH Hz Hrun)
    as (ppk' & step' & len' & Hppk' & _ & Hstep' & _ & _ & _ & Hscene).
  rewrite Hppk in Hppk'. injection Hppk' as <-.
  rewrite Hstep in Hstep'. injection Hstep' as <-.
  cbv zeta in Hscene.
  destruct Hscene as (fuel' & vl & hl & Hvl & Hhl & Hscene).
  rewrite Hscene. split.
  - intros k x Hx Hvis.
    apply in_or_app. left.
    apply (vertical_lines_multiples fuel' _ _ _ _ _ vl Hstep_pos Hvl k x).
    + apply within_half_km; [exact Hppk_pos |]. lra.
    + lra.
  - intros k y Hy Hvis.
    apply in_or_app. right. apply in_or_app. left.
    apply (horizontal_lines_multiples fuel' _ _ _ _ _ hl Hstep_pos Hhl k y).
    + apply within_half_km; [exact Hppk_pos |]. lra.
    + lra.
Qed.

Lemma grid_lines_follow_centre_witness :
  exists px_per_km step_km : R,
    redraw_px_per_km (init 800 600) = Ok px_per_km /\ 0 < px_per_km /\
    redraw_step_km (1 / px_per_km) = Ok step_km /\ 0 < step_km.
Proof.
  destruct (grid_lines_follow_centre (init 800 600))
    as (ppk & step & Hppk & Hpos & Hstep & Hstep_pos & _).
  - simpl. lia.
  - simpl. lia.
  - simpl. lra.
  - exists ppk, step. repeat split; assumption.
Defined.

Lemma nice_step_five (x : R) (z : Z) :
  3.5 * powerRZ 10 z <= x < 7.5 * powerRZ 10 z ->
  _nice_step x = Ok (5 * powerRZ 10 z).
Proof.
  intros [Hlo Hhi].
  pose proof (powerRZ_lt 10 z ltac:(lra)) as Hp.
  assert (Hx : 0 < x) by lra.
  assert (He : Zfloor (ln x / ln 10) = z).
  { apply log10_bracket_unique.
    rewrite powerRZ_add, powerRZ_1 by lra. lra. }
  destruct (nice_step_positive x Hx) as [Hs _].
  rewrite He in Hs. rewrite Hs. f_equal.
  assert (Hfrac : x / powerRZ 10 z * powerRZ 10 z = x) by (field; lra).
  repeat destruct (decide _); nra.
Qed.

(** The claim C8 fails once the view is panned: on a 600 x 600 viewport
    with no result set, zoom 1 and the view dragged 300 px to the right,
    the grid step is 0.5 km at 300/1.1 px per km; the multiple -3 of the
    step lies at pixel 190.9, inside the viewport, and no grid line is
    drawn there. *)
Lemma grid_misses_visible_multiple :
  let v := set_pan 300 0 (init 600 600) in
  let px_per_km := 300 / 1.1 in
  let step_km := 1 / 2 in
  let x := IZR (width v) / 2 + pan_dx v + IZR (-3) * step_km * px_per_km in
  redraw_px_per_km v = Ok px_per_km /\
  redraw_step_km (1 / px_per_km) = Ok step_km /\
  0 <= x <= IZR (width v) /\
  (exists (fuel : nat) (v' : view), redraw fuel v = Ok v') /\
  forall (fuel : nat) (v' : view),
    redraw fuel v = Ok v' ->
    ~ In (Line x 0 x (IZR (height v)) grid_pen) (scene v').
Proof.
  intros v px_per_km step_km x.
  assert (HW : (0 < width v)%Z) by (simpl; lia).
  assert (HH : (0 < height v)%Z) by (simpl; lia).
  assert (Hz : 0 < zoom v) by (simpl; lra).
  assert (Hppk : redraw_px_per_km v = Ok px_per_km).
  { rewrite redraw_px_per_km_ok. f_equal.
    unfold px_per_km, redraw_Rmax_km, SAFE_MARGIN. simpl.
    change (Z.min 600 600) with 600%Z.
    replace (Rmax 1.0 1e-9) with 1 by minmax_lra. lra. }
  assert (Hstep : _nice_step (120 * (1 / px_per_km)) = Ok step_km).
  { rewrite (nice_step_five _ (-1)).
    - f_equal. unfold step_km. simpl. lra.
    - unfold px_per_km. simpl. lra. }
  assert (Hx : x = 600 - 450 / 1.1).
  { unfold x, step_km, px_per_km. simpl. lra. }
  split; [exact Hppk |].
  split.
  { unfold redraw_step_km.
    replace (120.0 * (1 / px_per_km)) with (120 * (1 / px_per_km)) by lra.
    exact Hstep. }
  split; [simpl; lra |].
  split.
  { destruct (redraw_converges v Hz) as (fuel0 & v0 & Hconv & _).
    exists fuel0, v0. apply Hconv. lia. }
  intros fuel v' Hrun Hin.
  destruct (redraw_scene fuel v v' HW HH Hz Hrun)
    as (ppk' & step' & len' & Hppk' & Hpos & Hstep' & Hstep_pos & _ & _
        & Hscene).
  rewrite Hppk in Hppk'. injection Hppk' as <-.
  rewrite Hstep in Hstep'. injection Hstep' as <-.
  cbv zeta in Hscene.
  destruct Hscene as (fuel' & vl & hl & Hvl & Hhl & Hscene).
  rewrite Hscene in Hin.
  apply in_app_or in Hin as [Hin | Hin].
  - pose proof (vertical_lines_leftmost fuel' _ _ _ _ _ _ vl
                  (Rlt_le _ _ Hstep_pos) (Rlt_le _ _ Hpos) Hvl _ _ _ _ _ Hin)
      as Hleft.
    pose proof (floor_multiple_le (IZR (width v) / 2 * (1 / px_per_km))
                  step_km Hstep_pos) as Hfloor.
    assert (Hhalf : IZR (width v) / 2 * (1 / px_per_km) * px_per_km
                    = IZR (width v) / 2) by (field; lra).
    simpl in Hleft, Hfloor, Hhalf.
    set (n := IZR (Zfloor (600 / 2 * (1 / px_per_km) / step_km))) in *.
    assert (n * step_km * px_per_km <= 600 / 2) by nra.
    lra.
  - apply in_app_or in Hin as [Hin | Hin].
    + pose proof (horizontal_lines_left_edge fuel' _ _ _ _ _ _ hl Hhl
                    _ _ _ _ _ Hin).
      lra.
    + simpl in Hin.
      repeat (destruct Hin as [Heq | Hin]; [discriminate |]).
      exact Hin.
Qed.

(** ** The largest radius *)

(** The five radii the scale is fitted to, absent ones counted as zero. *)
Lemma Rmax_km_unfold (v : view) (e : gmap string R) :
  effects v = Some e -> e <> ∅ ->
  redraw_Rmax_km v
  = max_default
      (filter (fun x => x <> 0) (map (fun k => default 0 (e !! k)) keys)) 1.
Proof.
  intros He Hne. unfold redraw_Rmax_km, truthy. rewrite He.
  rewrite bool_decide_eq_true_2 by exact Hne.
  replace 0.0 with 0 by lra. replace 1.0 with 1 by lra. reflexivity.
Qed.



(** ** The state in range *)

Lemma Rmax_km_in_range (v : view) :
  in_range v -> redraw_Rmax_km v <= 1e100.
Proof.
  intros (_ & _ & _ & Hradii).
  unfold redraw_Rmax_km.
  destruct (effects v) as [e |] eqn:He; [| lra].
  destruct (truthy (Some e)); [| lra].
  set (vals := map (fun k => default 0.0 (e !! k)) keys).
  destruct (filter (fun x => x <> 0) vals) as [| r l] eqn:Hl; [simpl; lra |].
  assert (Hin : In (max_default (r :: l) 1.0) (r :: l))
    by (apply max_default_attained; discriminate).
  rewrite <- Hl in Hin at 2.
  apply list_elem_of_In in Hin.
  apply (list_elem_of_filter (fun x : R => x <> 0) vals) in Hin as [_ Hin].
  apply list_elem_of_In in Hin.
  apply in_map_iff in Hin as (k & Hk & Hkeys).
  rewrite <- Hk.
  pose proof (Hradii e eq_refl k Hkeys) as Hb.
  replace 0.0 with 0 by lra.
  apply Rle_trans with (Rabs (default 0 (e !! k))); [apply Rle_abs | exact Hb].
Qed.

(** In range the divisor, the scale and its reciprocal are far inside the
    binary64 range. *)
Lemma scale_in_range (v : view) :
  (0 < Z.min (width v) (height v))%Z -> in_range v ->
  let divisor := Rmax (redraw_Rmax_km v) 1e-9 * 1.10 in
  let px_per_km := IZR (Z.min (width v) (height v)) / 2 / divisor * zoom v in
  1e-9 * 1.10 <= divisor <= 1e100 * 1.10 /\
  1e-102 <= px_per_km <= 1e20 /\
  1e-20 <= 1 / px_per_km <= 1e102.
Proof.
  intros Hmin Hr divisor ppk.
  pose proof (Rmax_km_in_range v Hr) as HR.
  destruct Hr as (HW & HH & Hz & _).
  assert (Hd : 1e-9 * 1.10 <= divisor <= 1e100 * 1.10).
  { unfold divisor. split.
    - pose proof (Rmax_r (redraw_Rmax_km v) 1e-9). lra.
    - assert (Rmax (redraw_Rmax_km v) 1e-9 <= 1e100)
        by (apply Rmax_lub; lra).
      lra. }
  assert (Hm : 1 <= IZR (Z.min (width v) (height v)) <= 16777216).
  { split; apply IZR_le; lia. }
  set (m := IZR (Z.min (width v) (height v))) in *.
  set (q := m / 2 / divisor).
  assert (Hq : q * divisor = m / 2) by (unfold q; field; lra).
  assert (Hq0 : 0 < q) by (unfold q; apply Rdiv_lt_0_compat; lra).
  assert (Hqb : 4e-101 <= q <= 1e18).
  { split.
    - apply (Rmult_le_reg_r divisor); [lra |]. rewrite Hq.
      apply Rle_trans with (4e-101 * (1e100 * 1.10)); [| lra].
      apply Rmult_le_compat_l; lra.
    - apply (Rmult_le_reg_r (1e-9 * 1.10)); [lra |].
      apply Rle_trans with (q * divisor); [| lra].
      apply Rmult_le_compat_l; lra. }
  assert (Hp : 1e-102 <= ppk <= 1e20).
  { change ppk with (q * zoom v). split.
    - apply Rle_trans with (4e-101 * 0.2); [lra |].
      apply Rmult_le_compat; lra.
    - apply Rle_trans with (1e18 * 20); [| lra].
      apply Rmult_le_compat; lra. }
  split; [exact Hd |]. split; [exact Hp |].
  assert (Hinv : 1 / ppk * ppk = 1) by (field; lra).
  assert (Hi0 : 0 < 1 / ppk) by (apply Rdiv_lt_0_compat; lra).
  split.
  - apply (Rmult_le_reg_r 1e20); [lra |].
    apply Rle_trans with (1 / ppk * ppk); [lra |].
    apply Rmult_le_compat_l; lra.
  - apply (Rmult_le_reg_r 1e-102); [lra |].
    apply Rle_trans with (1 / ppk * ppk); [| lra].
    apply Rmult_le_compat_l; lra.
Qed.

(** ** Nothing but the two loops draws with the grid pen *)

Lemma vertical_lines_only (fuel : nat) :
  forall (x0 half_w_km step_km px_per_km cx : R) (H : Z) (l : list item),
    vertical_lines fuel x0 half_w_km step_km px_per_km cx H = Ok l ->
    forall (x1 y1 x2 y2 : R) (p : pen),
      In (Line x1 y1 x2 y2 p) l ->
      exists i : nat,
        x0 + INR i * step_km <= half_w_km + 1e-9 /\
        x1 = cx + (x0 + INR i * step_km) * px_per_km /\
        x2 = x1 /\ y1 = 0 /\ y2 = IZR H.
Proof.
  induction fuel as [| fuel IH];
    intros x0 half step ppk cx H l Hrun x1 y1 x2 y2 p Hin.
  - simpl in Hrun. destruct (decide (x0 <= half + 1e-9));
      [discriminate |]. injection Hrun as <-. destruct Hin.
  - simpl in Hrun. destruct (decide (x0 <= half + 1e-9)) as [Hle |];
      [| injection Hrun as <-; destruct Hin].
    apply bind_Ok_inv in Hrun as (rest & Hrest & Hret).
    cbn [mret result_ret] in Hret. injection Hret as <-.
    destruct Hin as [Heq | Hin].
    + injection Heq as <- <- <- <- _. exists 0%nat. simpl.
      repeat split; try reflexivity; lra.
    + apply in_app_or in Hin as [Hin | Hin].
      * destruct (decide (Rabs x0 > 1e-6)); [| destruct Hin].
        destruct Hin as [Heq | []]. discriminate.
      * destruct (IH _ _ _ _ _ _ _ Hrest _ _ _ _ _ Hin)
          as (i & Hi & Hx & Hrestq).
        exists (S i). rewrite S_INR.
        split; [lra |]. split; [rewrite Hx; f_equal; lra | exact Hrestq].
Qed.

Lemma horizontal_lines_only (fuel : nat) :
  forall (y0 half_h_km step_km px_per_km cy : R) (W : Z) (l : list item),
    horizontal_lines fuel y0 half_h_km step_km px_per_km cy W = Ok l ->
    forall (x1 y1 x2 y2 : R) (p : pen),
      In (Line x1 y1 x2 y2 p) l ->
      exists i : nat,
        y0 + INR i * step_km <= half_h_km + 1e-9 /\
        y1 = cy - (y0 + INR i * step_km) * px_per_km /\
        y2 = y1 /\ x1 = 0 /\ x2 = IZR W.
Proof.
  induction fuel as [| fuel IH];
    intros y0 half step ppk cy W l Hrun x1 y1 x2 y2 p Hin.
  - simpl in Hrun. destruct (decide (y0 <= half + 1e-9));
      [discriminate |]. injection Hrun as <-. destruct Hin.
  - simpl in Hrun. destruct (decide (y0 <= half + 1e-9)) as [Hle |];
      [| injection Hrun as <-; destruct Hin].
    apply bind_Ok_inv in Hrun as (rest & Hrest & Hret).
    cbn [mret result_ret] in Hret. injection Hret as <-.
    destruct Hin as [Heq | Hin].
    + injection Heq as <- <- <- <- _. exists 0%nat. simpl.
      repeat split; try reflexivity; lra.
    + apply in_app_or in Hin as [Hin | Hin].
      * destruct (decide (Rabs y0 > 1e-6)); [| destruct Hin].
        destruct Hin as [Heq | []]. discriminate.
      * destruct (IH _ _ _ _ _ _ _ Hrest _ _ _ _ _ Hin)
          as (i & Hi & Hy & Hrestq).
        exists (S i). rewrite S_INR.
        split; [lra |]. split; [rewrite Hy; f_equal; lra | exact Hrestq].
Qed.

(** The offsets of a loop started where [redraw] starts it are whole
    multiples of the step. *)
Lemma offset_is_multiple (half_km step_km : R) (i : nat) :
  - IZR (Zfloor (half_km / step_km)) * step_km + INR i * step_km
  = IZR (Z.of_nat i - Zfloor (half_km / step_km)) * step_km.
Proof. rewrite minus_IZR, <- INR_IZR_INZ. lra. Qed.

Lemma ring_no_line (px_per_km cx cy : R) (radius_km : option R)
    (color_hex : string) (alpha_fill : Z) (lbl : option string)
    (x1 y1 x2 y2 : R) (p : pen) :
  ~ In (Line x1 y1 x2 y2 p)
       (ring px_per_km cx cy radius_km color_hex alpha_fill lbl).
Proof.
  unfold ring. destruct radius_km as [r |]; [| intros []].
  destruct (_ || _); [intros [] |].
  intros [Heq | Hin]; [discriminate |].
  destruct lbl as [name |]; [| destruct Hin].
  destruct (decide (name = "")); [destruct Hin |].
  destruct Hin as [Heq | []]. discriminate.
Qed.

Lemma rings_no_line (v : view) (px_per_km cx cy x1 y1 x2 y2 : R) (p : pen) :
  ~ In (Line x1 y1 x2 y2 p) (rings v px_per_km cx cy).
Proof.
  unfold rings. destruct (effects v) as [e |]; [| intros []].
  destruct (truthy (Some e)); [| intros []].
  intros Hin.
  repeat (apply in_app_or in Hin as [Hin | Hin];
          [exact (ring_no_line _ _ _ _ _ _ _ _ _ _ _ _ Hin) |]).
  exact (ring_no_line _ _ _ _ _ _ _ _ _ _ _ _ Hin).
Qed.

(** A line drawn with the grid pen comes from one of the two loops. *)
Lemma grid_pen_lines (vlines hlines : list item) (km_len px_per_km : R)
    (H : Z) (v : view) (cx cy x1 y1 x2 y2 : R) :
  In (Line x1 y1 x2 y2 (Pen "#222833" 1))
     (vlines ++ hlines ++ scale_bar km_len px_per_km H
      ++ rings v px_per_km cx cy
      ++ [ Ellipse (cx - 5) (cy - 5) 10 10 (Pen "transparent" 1)
                   (Brush "#3291ff" 255) ]
      ++ legend_items 10 legend) ->
  In (Line x1 y1 x2 y2 (Pen "#222833" 1)) vlines \/
  In (Line x1 y1 x2 y2 (Pen "#222833" 1)) hlines.
Proof.
  intros Hin.
  apply in_app_or in Hin as [Hin | Hin]; [left; exact Hin |].
  apply in_app_or in Hin as [Hin | Hin]; [right; exact Hin |].
  exfalso.
  apply in_app_or in Hin as [Hin | Hin].
  { unfold scale_bar, sb_pen in Hin. simpl in Hin.
    destruct Hin as [Heq | [Heq | [Heq | [Heq | []]]]]; discriminate. }
  apply in_app_or in Hin as [Hin | Hin];
    [exact (rings_no_line _ _ _ _ _ _ _ _ _ Hin) |].
  simpl in Hin.
  repeat (destruct Hin as [Heq | Hin]; [discriminate |]).
  destruct Hin.
Qed.

(** The four items of the scale bar. *)
Lemma scale_bar_in_scene (km_len px_per_km : R) (H : Z)
    (before after : list item) :
  let s := before ++ scale_bar km_len px_per_km H ++ after in
  let sb_y := IZR (H - 24) in
  let x_end := 20 + km_len * px_per_km in
  In (Line 20 sb_y x_end sb_y (Pen "#A9B1BD" 2)) s /\
  In (Line 20 (sb_y - 5) 20 (sb_y + 5) (Pen "#A9B1BD" 2)) s /\
  In (Line x_end (sb_y - 5) x_end (sb_y + 5) (Pen "#A9B1BD" 2)) s /\
  In (Text (PlainKm km_len) 10 "#9AA3AF" (x_end + 8) (sb_y - 14)) s.
Proof.
  intros s sb_y x_end. unfold s.
  repeat split; apply in_or_app; right; apply in_or_app; left;
    unfold scale_bar; simpl; tauto.
Qed.

(** ** The scale never divides by zero *)

(** The scene of a view in range: the scale and its bounds, the two
    rounded lengths, the lines of the two loops and the rest. *)
Lemma redraw_in_range (v : view) :
  (0 < Z.min (width v) (height v))%Z -> in_range v ->
  let px_per_km :=
    IZR (Z.min (width v) (height v)) / 2
    / (Rmax (redraw_Rmax_km v) 1e-9 * 1.10) * zoom v in
  let cx := IZR (width v) / 2 + pan_dx v in
  let cy := IZR (height v) / 2 + pan_dy v in
  let half_w_km := IZR (width v) / 2 * (1 / px_per_km) in
  let half_h_km := IZR (height v) / 2 * (1 / px_per_km) in
  redraw_px_per_km v = Ok px_per_km /\ 0 < px_per_km /\
  exists (step_km km_len : R) (fuel0 : nat) (v' : view)
         (vlines hlines : list item),
    _nice_step (120 * (1 / px_per_km)) = Ok step_km /\ 0 < step_km /\
    _nice_step (150 * (1 / px_per_km)) = Ok km_len /\ 0 < km_len /\
    (forall fuel : nat, (fuel0 <= fuel)%nat -> redraw fuel v = Ok v') /\
    same_state v v' /\
    vertical_lines fuel0 (- IZR (Zfloor (half_w_km / step_km)) * step_km)
                   half_w_km step_km px_per_km cx (height v) = Ok vlines /\
    horizontal_lines fuel0 (- IZR (Zfloor (half_h_km / step_km)) * step_km)
                     half_h_km step_km px_per_km cy (width v) = Ok hlines /\
    scene v'
    = vlines ++ hlines ++ scale_bar km_len px_per_km (height v)
      ++ rings v px_per_km cx cy
      ++ [ Ellipse (cx - 5) (cy - 5) 10 10 (Pen "transparent" 1)
                   (Brush "#3291ff" 255) ]
      ++ legend_items 10 legend.
Proof.
  intros Hmin Hr ppk cx cy half_w half_h.
  assert (HW : (0 < width v)%Z) by lia.
  assert (HH : (0 < height v)%Z) by lia.
  assert (Hz : 0 < zoom v) by (destruct Hr as (_ & _ & Hz & _); lra).
  destruct (redraw_runs v HW HH Hz)
    as (ppk' & kpp & step & len & Hppk & Hppk_pos & _ & -> & Hstep
        & Hstep_pos & Hlen & Hlen_pos & fuel0 & Hall).
  rewrite redraw_px_per_km_ok in Hppk. injection Hppk as Hppk.
  unfold SAFE_MARGIN in Hppk. fold ppk in Hppk. subst ppk'.
  split; [rewrite redraw_px_per_km_ok; reflexivity |].
  split; [exact Hppk_pos |].
  destruct (Hall fuel0 (Nat.le_refl _)) as (vl & hl & Hvl & Hhl & Hredraw).
  eexists step, len, fuel0, _, vl, hl.
  split; [exact Hstep |]. split; [exact Hstep_pos |].
  split; [exact Hlen |]. split; [exact Hlen_pos |].
  split.
  { intros fuel Hfuel. exact (redraw_mono fuel0 fuel _ _ Hfuel Hredraw). }
  split; [apply same_state_set_scene |].
  split; [exact Hvl |]. split; [exact Hhl |]. reflexivity.
Qed.



(** ** Decades within the binary64 range *)

(** Powers of ten and of two as quotients of integers. *)
Lemma powerRZ_neg_IZR (b : Z) (p : positive) :
  powerRZ (IZR b) (Z.neg p) = / IZR (b ^ Z.pos p).
Proof.
  cbn [powerRZ]. rewrite pow_IZR, positive_nat_Z. reflexivity.
Qed.

Lemma powerRZ_pos_IZR (b : Z) (p : positive) :
  powerRZ (IZR b) (Z.pos p) = IZR (b ^ Z.pos p).
Proof.
  cbn [powerRZ]. rewrite pow_IZR, positive_nat_Z. reflexivity.
Qed.

Lemma powerRZ_10_mono (a b : Z) :
  (a <= b)%Z -> powerRZ 10 a <= powerRZ 10 b.
Proof.
  intros Hab. rewrite !powerRZ_10_exp.
  pose proof ln_10_pos.
  assert (IZR a <= IZR b) by (apply IZR_le; exact Hab).
  destruct (Req_dec (IZR a) (IZR b)) as [-> | Hne]; [lra |].
  left. apply exp_increasing. nra.
Qed.

Lemma smallest_float_decade :
  powerRZ 10 (-324) <= powerRZ 2 (-1074) < powerRZ 10 (-324 + 1).
Proof.
  change (-324 + 1)%Z with (-323)%Z.
  rewrite (powerRZ_neg_IZR 10), (powerRZ_neg_IZR 10), (powerRZ_neg_IZR 2).
  split.
  - apply Rinv_le_contravar; [apply IZR_lt; reflexivity |].
    apply IZR_le. vm_compute. discriminate.
  - apply Rinv_lt_contravar.
    + rewrite <- mult_IZR. apply IZR_lt. reflexivity.
    + apply IZR_lt. reflexivity.
Qed.

Lemma pow10_underflows : Underflow.pow10 (-324) = 0.
Proof.
  unfold Underflow.pow10.
  destruct (decide _) as [_ | Hn]; [reflexivity |].
  exfalso. apply Hn.
  rewrite (powerRZ_neg_IZR 10), (powerRZ_neg_IZR 2).
  apply Rinv_le_contravar; [apply IZR_lt; reflexivity |].
  apply IZR_le. vm_compute. discriminate.
Qed.

Lemma pow10_in_range (e : Z) :
  (-300 <= e)%Z -> Underflow.pow10 e = powerRZ 10 e.
Proof.
  intros He. unfold Underflow.pow10.
  destruct (decide _) as [Hle | _]; [| reflexivity].
  exfalso.
  pose proof (powerRZ_10_mono (-300) e He) as Hm.
  assert (powerRZ 2 (-1075) < powerRZ 10 (-300)); [| lra].
  rewrite (powerRZ_neg_IZR 10), (powerRZ_neg_IZR 2).
  apply Rinv_lt_contravar.
  - rewrite <- mult_IZR. apply IZR_lt. reflexivity.
  - apply IZR_lt. reflexivity.
Qed.

Lemma decade_in_range (x : R) :
  1e-300 <= x <= 1e300 ->
  (-300 <= Zfloor (ln x / ln 10) <= 300)%Z.
Proof.
  intros [Hlo Hhi].
  assert (Hx : 0 < x) by lra.
  destruct (log10_bracket x Hx) as [Hb1 Hb2].
  set (e := Zfloor (ln x / ln 10)) in *.
  assert (H300 : powerRZ 10 (-300) = 1e-300).
  { rewrite (powerRZ_neg_IZR 10). 
    change (10 ^ 300)%Z with (Z.pow_pos 10 300). lra. }
  assert (H300' : powerRZ 10 300 = 1e300).
  { rewrite (powerRZ_pos_IZR 10).
    change (10 ^ 300)%Z with (Z.pow_pos 10 300). lra. }
  split.
  - destruct (Z_lt_le_dec e (-300)) as [Hlt | Hge]; [| exact Hge].
    exfalso.
    pose proof (powerRZ_10_mono (e + 1) (-300) ltac:(lia)). lra.
  - destruct (Z_lt_le_dec 300 e) as [Hlt | Hge]; [| exact Hge].
    exfalso.
    pose proof (powerRZ_10_mono 301 e ltac:(lia)) as Hm.
    assert (powerRZ 10 300 < powerRZ 10 301); [| lra].
    rewrite !(powerRZ_pos_IZR 10). apply IZR_lt. reflexivity.
Qed.

Lemma nice_step_no_underflow (x : R) :
  1e-300 <= x <= 1e300 -> Underflow._nice_step x = _nice_step x.
Proof.
  intros Hx.
  destruct (decade_in_range x Hx) as [He _].
  unfold Underflow._nice_step, _nice_step, log10.
  destruct (decide (x <= 0)); [reflexivity |].
  destruct (decide (0 < x)); [| reflexivity].
  cbn [mbind result_bind].
  rewrite pow10_in_range by exact He. reflexivity.
Qed.

(** ** The rounder and its two uses *)

(** C7.  For every [x] from 1e-300 to 1e300, [_nice_step] returns
    [f * 10^floor(log10 x)] with [f] = 1, 2, 5 or 10 as
    [x / 10^floor(log10 x)] is below 1.5, below 3.5, below 7.5 or not; the
    exponent is between -300 and 300, so that the power of ten does not
    underflow, and the result is 1, 2 or 5 times a power of ten.  On a view
    in range with a viewport of positive sides, [redraw] completes and both
    lengths come from [_nice_step], on arguments within that range.  The
    grid step is [_nice_step] of 120 pixels' worth of kilometres: every
    whole multiple of it within the half-width (half-height) has its
    vertical (horizontal) line, and every line drawn with the grid pen is
    at a whole multiple of it.  The scale bar is as long as [_nice_step] of
    150 pixels' worth of kilometres, drawn from x = 20 at height [H - 24]
    with its two ticks and its label. *)
Theorem nice_step_rounder :
  (forall x : R,
      1e-300 <= x <= 1e300 ->
      let e := Zfloor (ln x / ln 10) in
      let frac := x / powerRZ 10 e in
      let f :=
        if decide (frac < 1.5) then 1
        else if decide (frac < 3.5) then 2
        else if decide (frac < 7.5) then 5
        else 10 in
      _nice_step x = Ok (f * powerRZ 10 e) /\
      (-300 <= e <= 300)%Z /\
      Underflow._nice_step x = Ok (f * powerRZ 10 e) /\
      exists (m : R) (n : Z),
        (m = 1 \/ m = 2 \/ m = 5) /\ _nice_step x = Ok (m * powerRZ 10 n)) /\
  (forall v : view,
      (0 < Z.min (width v) (height v))%Z -> in_range v ->
      exists px_per_km step_km km_len : R,
        redraw_px_per_km v = Ok px_per_km /\
        1e-300 <= 120 * (1 / px_per_km) <= 1e300 /\
        1e-300 <= 150 * (1 / px_per_km) <= 1e300 /\
        _nice_step (120 * (1 / px_per_km)) = Ok step_km /\
        _nice_step (150 * (1 / px_per_km)) = Ok km_len /\
        let cx := IZR (width v) / 2 + pan_dx v in
        let cy := IZR (height v) / 2 + pan_dy v in
        let half_w_km := IZR (width v) / 2 * (1 / px_per_km) in
        let half_h_km := IZR (height v) / 2 * (1 / px_per_km) in
        exists (fuel0 : nat) (v' : view),
          (forall fuel : nat, (fuel0 <= fuel)%nat -> redraw fuel v = Ok v') /\
          (forall k : Z,
              - half_w_km <= IZR k * step_km <= half_w_km ->
              In (Line (cx + IZR k * step_km * px_per_km) 0
                       (cx + IZR k * step_km * px_per_km) (IZR (height v))
                       (Pen "#222833" 1))
                 (scene v')) /\
          (forall k : Z,
              - half_h_km <= IZR k * step_km <= half_h_km ->
              In (Line 0 (cy - IZR k * step_km * px_per_km)
                       (IZR (width v)) (cy - IZR k * step_km * px_per_km)
                       (Pen "#222833" 1))
                 (scene v')) /\
          (forall x1 y1 x2 y2 : R,
              In (Line x1 y1 x2 y2 (Pen "#222833" 1)) (scene v') ->
              exists k : Z,
                (x1 = cx + IZR k * step_km * px_per_km /\ x2 = x1 /\
                 y1 = 0 /\ y2 = IZR (height v)) \/
                (y1 = cy - IZR k * step_km * px_per_km /\ y2 = y1 /\
                 x1 = 0 /\ x2 = IZR (width v))) /\
          let sb_y := IZR (height v - 24) in
          let x_end := 20 + km_len * px_per_km in
          In (Line 20 sb_y x_end sb_y (Pen "#A9B1BD" 2)) (scene v') /\
          In (Line 20 (sb_y - 5) 20 (sb_y + 5) (Pen "#A9B1BD" 2))
             (scene v') /\
          In (Line x_end (sb_y - 5) x_end (sb_y + 5) (Pen "#A9B1BD" 2))
             (scene v') /\
          In (Text (PlainKm km_len) 10 "#9AA3AF" (x_end + 8) (sb_y - 14))
             (scene v')).
Proof.
  split.
  - intros x Hx e frac f.
    assert (Hpos : 0 < x) by lra.
    destruct (nice_step_positive x Hpos) as [Hs Hfrac].
    fold e in Hs, Hfrac. fold frac in Hs, Hfrac. fold f in Hs.
    split; [exact Hs |].
    split; [exact (decade_in_range x Hx) |].
    split; [rewrite nice_step_no_underflow by exact Hx; exact Hs |].
    unfold f in *.
    destruct (decide (frac < 1.5));
      [| destruct (decide (frac < 3.5)); [| destruct (decide (frac < 7.5))]].
    + exists 1, e. split; [auto | exact Hs].
    + exists 2, e. split; [auto | exact Hs].
    + exists 5, e. split; [auto | exact Hs].
    + exists 1, (e + 1)%Z. split; [auto |].
      rewrite Hs. f_equal.
      rewrite powerRZ_add, powerRZ_1 by lra. lra.
  - intros v Hmin Hr.
    destruct (scale_in_range v Hmin Hr) as (_ & _ & Hk).
    destruct (redraw_in_range v Hmin Hr)
      as (Hppk & Hpos & step & len & fuel0 & v' & vl & hl & Hstep & Hstep_pos
          & Hlen & _ & Hconv & _ & Hvl & Hhl & Hscene).
    set (ppk := IZR (Z.min (width v) (height v)) / 2
                / (Rmax (redraw_Rmax_km v) 1e-9 * 1.10) * zoom v) in *.
    exists ppk, step, len.
    split; [exact Hppk |].
    split; [lra |]. split; [lra |].
    split; [exact Hstep |]. split; [exact Hlen |].
    intros cx cy half_w half_h.
    exists fuel0, v'. split; [exact Hconv |].
    fold cx cy half_w half_h in Hvl, Hhl, Hscene.
    split.
    { intros k Hk'. rewrite Hscene. apply in_or_app. left.
      apply (vertical_lines_multiples fuel0 _ _ _ _ _ vl Hstep_pos Hvl k);
        [exact Hk' | reflexivity]. }
    split.
    { intros k Hk'. rewrite Hscene. apply in_or_app. right.
      apply in_or_app. left.
      apply (horizontal_lines_multiples fuel0 _ _ _ _ _ hl Hstep_pos Hhl k);
        [exact Hk' | reflexivity]. }
    split.
    { intros x1 y1 x2 y2 Hin. rewrite Hscene in Hin.
      apply grid_pen_lines in Hin as [Hin | Hin].
      - destruct (vertical_lines_only fuel0 _ _ _ _ _ _ _ Hvl _ _ _ _ _ Hin)
          as (i & _ & Hx1 & Hx2 & Hy1 & Hy2).
        rewrite offset_is_multiple in Hx1.
        eexists. left. split; [exact Hx1 |]. auto.
      - destruct (horizontal_lines_only fuel0 _ _ _ _ _ _ _ Hhl _ _ _ _ _ Hin)
          as (i & _ & Hy1 & Hy2 & Hx1 & Hx2).
        rewrite offset_is_multiple in Hy1.
        eexists. right. split; [exact Hy1 |]. auto. }
    intros sb_y x_end.
    rewrite Hscene, (app_assoc vl hl).
    exact (scale_bar_in_scene len ppk (height v) (vl ++ hl) _).
Qed.

Lemma nice_step_rounder_witness :
  exists (m : R) (n : Z),
    (m = 1 \/ m = 2 \/ m = 5) /\ _nice_step 0.44 = Ok (m * powerRZ 10 n).
Proof.
  destruct (proj1 nice_step_rounder 0.44) as (_ & _ & _ & Hm).
  - lra.
  - exact Hm.
Defined.

(** C7 fails on the smallest positive float, 2^-1074 (written 5e-324): it
    lies in the decade of 10^-324, [10 ** -324] underflows to 0.0, and the
    division [x / (10 ** exp)] raises [ZeroDivisionError]. *)
Lemma smallest_float_raises :
  0 < powerRZ 2 (-1074) /\
  Underflow._nice_step (powerRZ 2 (-1074)) = Raise ZeroDivisionError.
Proof.
  assert (Hpos : 0 < powerRZ 2 (-1074)) by (apply powerRZ_lt; lra).
  split; [exact Hpos |].
  unfold Underflow._nice_step, log10.
  destruct (decide (powerRZ 2 (-1074) <= 0)); [lra |].
  destruct (decide (0 < powerRZ 2 (-1074))); [| contradiction].
  cbn [mbind result_bind].
  rewrite (log10_bracket_unique _ (-324) smallest_float_decade).
  rewrite pow10_underflows.
  unfold py_div. destruct (decide (0 = 0)); [reflexivity | contradiction].
Qed.

(** ** Replays on binary64 floats *)

Section Binary64_replays.

Import PrimFloat.
#[local] Set Warnings "-inexact-float".

(** Within the range the replay follows the real-number model: the
    on-screen defaults give the kinetic yield of 9.39 Mt, and an empty
    result set on a 600 x 600 viewport the scale of 272.7 pixels per
    kilometre. *)
Lemma replay_in_range :
  Binary64.on_calc_mt 50%float 20%float 3000%float
  = Ok 9.3857333101989511%float /\
  Binary64.redraw_scale (Some ∅) 1%float 600 600
  = Ok (Some (272.72727272727269%float, 0.003666666666666667%float)).
Proof. vm_compute. repeat split. Qed.

(** C10 fails beyond the binary64 range.  With the on-screen diameter and
    density and a velocity of 1e200 km/s, [(v_km_s * 1000.0) ** 2] raises
    [OverflowError] in [kinetic_energy_joules]; with a diameter of 1e104 m,
    [(d_m / 2) ** 3] raises it in [volume_sphere].  Either way [on_calc]
    raises before it calls [impact_effects]. *)
Lemma fast_body_overflows :
  Binary64.int_pow (1e200 * 1000.0)%float 2 = Raise OverflowError /\
  Binary64.on_calc_mt 50%float 1e200%float 3000%float = Raise OverflowError /\
  Binary64.int_pow (1e104 / 2)%float 3 = Raise OverflowError /\
  Binary64.on_calc_mt 1e104%float 20%float 3000%float = Raise OverflowError.
Proof. vm_compute. repeat split. Qed.


End Binary64_replays.

(** * Further properties of the effects model *)

Lemma sin_65_degrees : 0.9 <= sin (radians 65).
Proof.
  pose proof PI_bounds as [Hlo Hhi].
  unfold radians. set (a := 65 * PI / 180).
  assert (Ha : 1.13446 < a < 1.13447) by (unfold a; lra).
  destruct (SIN a ltac:(lra) ltac:(lra)) as [Hlb _].
  unfold sin_lb, sin_approx, sin_term in Hlb. simpl in Hlb.
  assert (H3 : a ^ 3 <= 1.13447 ^ 3) by (apply pow_incr; lra).
  assert (H5 : 1.13446 ^ 5 <= a ^ 5) by (apply pow_incr; lra).
  assert (H7 : a ^ 7 <= 1.13447 ^ 7) by (apply pow_incr; lra).
  simpl in H3, H5, H7.
  lra.
Qed.

Lemma sin_64_degrees : sin (radians 64) < 0.9.
Proof.
  pose proof PI_bounds as [Hlo Hhi].
  unfold radians. set (a := 64 * PI / 180).
  assert (Ha : 1.117 < a < 1.1171) by (unfold a; lra).
  destruct (COS a ltac:(lra) ltac:(lra)) as [Hlb _].
  unfold cos_lb, cos_approx, cos_term in Hlb. simpl in Hlb.
  assert (H2 : a ^ 2 <= 1.1171 ^ 2) by (apply pow_incr; lra).
  assert (H4 : 1.117 ^ 4 <= a ^ 4) by (apply pow_incr; lra).
  assert (H6 : a ^ 6 <= 1.1171 ^ 6) by (apply pow_incr; lra).
  simpl in H2, H4, H6.
  assert (Hc : 0.4382 <= cos a) by lra.
  pose proof (sin2_cos2 a) as Hsc. unfold Rsqr in Hsc.
  assert (Hs : 0 <= sin a) by (apply sin_ge_0; lra).
  nra.
Qed.

Lemma sin_theta_mono (t1 t2 : R) :
  1 <= t1 -> t1 <= t2 -> t2 <= 90 ->
  sin (radians t1) <= sin (radians t2).
Proof.
  intros H1 H12 H2.
  pose proof (radians_quarter_turn t1 ltac:(lra)).
  pose proof (radians_quarter_turn t2 ltac:(lra)).
  pose proof PI_RGT_0.
  apply sin_incr_1; try lra. unfold radians. nra.
Qed.

(** X1.  Entry angles of 65 degrees or more couple the whole kinetic yield
    (the factor [0.55 + 0.5 sin] is capped at 1, so the effective surface
    yield is the kinetic yield, floored at 1e-9); at 64 degrees or less,
    for a kinetic yield of at least 2e-9 Mt, the effective surface yield
    is the kinetic yield times the factor, strictly less than the kinetic
    yield (below that yield the 1e-9 floor can raise the result above
    it). *)
Theorem steep_angles_couple_fully :
  (forall kinetic_mt angle : R,
      65 <= angle ->
      surface_yield_mt kinetic_mt angle = Rmax kinetic_mt 1e-9) /\
  (forall kinetic_mt angle : R,
      angle <= 64 -> 2e-9 <= kinetic_mt ->
      surface_yield_mt kinetic_mt angle
      = kinetic_mt * surface_yield_f angle /\
      surface_yield_mt kinetic_mt angle < kinetic_mt).
Proof.
  split.
  - intros kinetic_mt angle Hangle.
    unfold surface_yield_mt, surface_yield_f. cbv zeta.
    pose proof (surface_yield_theta_bounds angle) as [Hlo Hhi].
    assert (Hth : 65 <= surface_yield_theta angle)
      by (unfold surface_yield_theta; minmax_lra).
    pose proof (sin_theta_mono 65 (surface_yield_theta angle)
                  ltac:(lra) Hth Hhi).
    pose proof sin_65_degrees.
    rewrite Rmin_right by lra.
    f_equal. lra.
  - intros kinetic_mt angle Hangle Hk.
    pose proof (surface_yield_theta_bounds angle) as [Hlo Hhi].
    assert (Hth : surface_yield_theta angle <= 64)
      by (unfold surface_yield_theta; minmax_lra).
    pose proof (sin_theta_mono (surface_yield_theta angle) 64
                  Hlo Hth ltac:(lra)).
    pose proof sin_64_degrees.
    pose proof (surface_yield_f_bounds angle) as [Hf0 _].
    assert (Hf : surface_yield_f angle < 1) by (unfold surface_yield_f; lra).
    assert (Hy : surface_yield_mt kinetic_mt angle
                 = kinetic_mt * surface_yield_f angle).
    { unfold surface_yield_mt. cbv zeta.
      rewrite Rmin_left by lra. rewrite Rmax_left by nra. reflexivity. }
    split; [exact Hy | rewrite Hy; nra].
Qed.

Lemma steep_angles_couple_fully_witness :
  surface_yield_mt 9 70 = Rmax 9 1e-9 /\ surface_yield_mt 9 30 < 9.
Proof.
  split.
  - apply (proj1 steep_angles_couple_fully 9 70). lra.
  - apply (proj2 steep_angles_couple_fully 9 30); lra.
Defined.

Lemma Rpower_third_mult (c y : R) :
  0 < c -> 0 < y ->
  Rpower (c * y) (1 / 3) = Rpower c (1 / 3) * Rpower y (1 / 3).
Proof.
  intros Hc Hy. symmetry. apply Rpower_mult_distr; assumption.
Qed.

Lemma surface_yield_mt_scaled (c kinetic_mt angle : R) :
  1 <= c ->
  1e-9 <= kinetic_mt * Rmin (surface_yield_f angle) 1 ->
  surface_yield_mt (c * kinetic_mt) angle
  = c * surface_yield_mt kinetic_mt angle.
Proof.
  intros Hc Hfloor. unfold surface_yield_mt. cbv zeta.
  replace 1.0 with 1 by lra.
  set (y := kinetic_mt * Rmin (surface_yield_f angle) 1) in *.
  replace (c * kinetic_mt * Rmin (surface_yield_f angle) 1) with (c * y)
    by (unfold y; ring).
  rewrite (Rmax_left y) by lra.
  rewrite Rmax_left by nra.
  reflexivity.
Qed.

(** X2.  The cube-root law: when the effective yield is above its 1e-9
    floor, multiplying the kinetic yield by [c >= 1] multiplies the
    effective surface yield by [c] and every one of the five radii by
    [c^(1/3)]. *)
Theorem radii_cube_root_law (c kinetic_mt angle : R) :
  1 <= c ->
  1e-9 <= kinetic_mt * Rmin (surface_yield_f angle) 1 ->
  exists out1 out2 : gmap string R,
    impact_effects kinetic_mt angle = Ok out1 /\
    impact_effects (c * kinetic_mt) angle = Ok out2 /\
    (exists Y : R,
        out1 !! "effective_surface_yield_mt" = Some Y /\
        out2 !! "effective_surface_yield_mt" = Some (c * Y)) /\
    forall kind : radius_kind,
      exists r : R,
        out1 !! radius_key kind = Some r /\
        out2 !! radius_key kind = Some (Rpower c (1 / 3) * r).
Proof.
  intros Hc Hfloor.
  destruct (impact_effects_ok kinetic_mt angle) as (out1 & Ho1 & HY1 & Hr1).
  destruct (impact_effects_ok (c * kinetic_mt) angle)
    as (out2 & Ho2 & HY2 & Hr2).
  rewrite (surface_yield_mt_scaled c kinetic_mt angle Hc Hfloor) in HY2, Hr2.
  pose proof (surface_yield_mt_floor kinetic_mt angle) as HY.
  exists out1, out2.
  split; [exact Ho1 |]. split; [exact Ho2 |].
  split; [eexists; split; [exact HY1 | exact HY2] |].
  intros kind. eexists. split; [apply Hr1 |].
  rewrite Hr2. f_equal.
  rewrite Rpower_third_mult by lra. ring.
Qed.

Lemma radii_cube_root_law_witness :
  exists out1 out2 : gmap string R,
    impact_effects 1 90 = Ok out1 /\
    impact_effects (8 * 1) 90 = Ok out2 /\
    forall kind : radius_kind,
      exists r : R,
        out1 !! radius_key kind = Some r /\
        out2 !! radius_key kind = Some (Rpower 8 (1 / 3) * r).
Proof.
  destruct (radii_cube_root_law 8 1 90) as (out1 & out2 & H1 & H2 & _ & Hr).
  - lra.
  - pose proof (surface_yield_f_bounds 90). minmax_lra.
  - exists out1, out2. repeat split; assumption.
Defined.

Lemma on_calc_mt_scale_diameter (s d v rho : R) :
  on_calc_mt (s * d) v rho = s ^ 3 * on_calc_mt d v rho.
Proof.
  unfold on_calc_mt, joules_to_megatons_tnt, on_calc_energy,
    kinetic_energy_joules, on_calc_mass, mass_from_diameter, volume_sphere.
  unfold Rdiv. ring.
Qed.

(** X3.  Radii grow linearly with the diameter: when the effective yield is
    above its floor, scaling the diameter by [s >= 1] (same velocity,
    density and angle) scales every one of the five radii by [s]. *)
Theorem radii_linear_in_diameter (s d v rho angle : R) :
  1 <= s ->
  1e-9 <= on_calc_mt d v rho * Rmin (surface_yield_f angle) 1 ->
  exists out1 out2 : gmap string R,
    on_calc_effects d v rho angle = Ok out1 /\
    on_calc_effects (s * d) v rho angle = Ok out2 /\
    forall kind : radius_kind,
      exists r : R,
        out1 !! radius_key kind = Some r /\
        out2 !! radius_key kind = Some (s * r).
Proof.
  intros Hs Hfloor.
  assert (Hs3 : 1 <= s ^ 3).
  { apply pow_R1_Rle. exact Hs. }
  destruct (impact_effects_ok (on_calc_mt d v rho) angle)
    as (out1 & Ho1 & _ & Hr1).
  destruct (impact_effects_ok (on_calc_mt (s * d) v rho) angle)
    as (out2 & Ho2 & _ & Hr2).
  rewrite on_calc_mt_scale_diameter in Hr2.
  rewrite (surface_yield_mt_scaled _ _ angle Hs3 Hfloor) in Hr2.
  pose proof (surface_yield_mt_floor (on_calc_mt d v rho) angle) as HY.
  exists out1, out2.
  split; [exact Ho1 |]. split; [exact Ho2 |].
  intros kind. eexists. split; [apply Hr1 |].
  rewrite Hr2. f_equal.
  rewrite Rpower_third_mult by lra.
  rewrite Rpower_cube_third by lra. ring.
Qed.

Lemma radii_linear_in_diameter_witness :
  exists out1 out2 : gmap string R,
    on_calc_effects 50 20 3000 45 = Ok out1 /\
    on_calc_effects (2 * 50) 20 3000 45 = Ok out2 /\
    forall kind : radius_kind,
      exists r : R,
        out1 !! radius_key kind = Some r /\
        out2 !! radius_key kind = Some (2 * r).
Proof.
  apply (radii_linear_in_diameter 2 50 20 3000 45).
  - lra.
  - pose proof example_mt. pose proof example_f.
    rewrite Rmin_left by lra. nra.
Defined.

(** X4.  Below the floor every input gives the same result: for a kinetic
    yield of at most 1e-9 Mt (zero and negative yields included) and any
    angle, the effective surface yield is exactly 1e-9 and each radius is
    its constant times 0.001 km. *)
Theorem floor_radii (kinetic_mt angle : R) :
  kinetic_mt <= 1e-9 ->
  exists out : gmap string R,
    impact_effects kinetic_mt angle = Ok out /\
    out !! "effective_surface_yield_mt" = Some 1e-9 /\
    forall kind : radius_kind,
      out !! radius_key kind = Some (radius_k kind * 0.001).
Proof.
  intros Hk.
  destruct (impact_effects_ok kinetic_mt angle) as (out & Ho & HY & Hr).
  assert (HYeq : surface_yield_mt kinetic_mt angle = 1e-9).
  { unfold surface_yield_mt. cbv zeta.
    pose proof (surface_yield_f_bounds angle) as [Hlo Hhi].
    assert (0.55 <= Rmin (surface_yield_f angle) 1.0 <= 1)
      by (split; minmax_lra).
    apply Rmax_right.
    destruct (Rle_dec 0 kinetic_mt); nra. }
  rewrite HYeq in HY, Hr.
  exists out. split; [exact Ho |]. split; [exact HY |].
  intros kind. rewrite Hr. do 2 f_equal.
  replace 1e-9 with (0.001 ^ 3) by (simpl; lra).
  apply Rpower_cube_third. lra.
Qed.

Lemma floor_radii_witness :
  exists out : gmap string R,
    impact_effects (-5) 45 = Ok out /\
    out !! "severe_blast_km" = Some (1.1 * 0.001).
Proof.
  destruct (floor_radii (-5) 45) as (out & Ho & _ & Hr).
  - lra.
  - exists out. split; [exact Ho | exact (Hr SevereBlast)].
Defined.

(** * Properties of the mitigation brief *)

Lemma space_ok_singleton (lead_years : R) :
  exists tip : string, space_ok lead_years = [tip].
Proof.
  unfold space_ok. cbv zeta.
  repeat destruct (decide _); eexists; reflexivity.
Qed.

Lemma mitigation_base_sizes :
  map_Forall (fun _ tips => (2 <= length tips <= 3)%nat) mitigation_base.
Proof.
  unfold mitigation_base.
  repeat (apply map_Forall_insert_2; [simpl; lia |]).
  apply map_Forall_empty.
Qed.

Lemma classify_size_cases (d : R) :
  (d < 300 /\
   exists t1 t2 t3 : string,
     mitigation_base !! classify_size d = Some [t1; t2; t3]) \/
  (300 <= d /\
   exists t1 t2 : string,
     mitigation_base !! classify_size d = Some [t1; t2]).
Proof.
  unfold classify_size.
  destruct (decide (d < 10)); [left; split; [lra |] |
    destruct (decide (d < 50)); [left; split; [lra |] |
      destruct (decide (d < 140)); [left; split; [lra |] |
        destruct (decide (d < 300)); [left; split; [lra |] |
          destruct (decide (d < 1000));
            (right; split; [lra |])]]]];
    repeat eexists; reflexivity.
Qed.

(** X5.  The size class computed from a diameter is always a key of the
    advice table, so the brief built by [on_calc] never falls back to the
    empty default: it holds the class's tips (three below 300 m, two from
    300 m on), two event tips, two ocean tips when the ocean box is ticked,
    and one lead-time tip. *)
Theorem advice_always_finds_size_class (d angle lead_years : R)
    (ocean : bool) :
  (exists tips : list string,
      mitigation_base !! classify_size d = Some tips) /\
  length (on_calc_advice d angle lead_years ocean)
  = ((if decide (d < 300)%R then 3 else 2) + 2
     + (if ocean then 2 else 0) + 1)%nat.
Proof.
  destruct (space_ok_singleton lead_years) as [tip Htip].
  assert (Hev : forall ev : string,
             length (if decide (ev = "airburst")
                     then airburst_tweaks else ground_tweaks) = 2%nat).
  { intros ev. destruct (decide _); reflexivity. }
  unfold on_calc_advice, mitigation_brief. cbv zeta.
  rewrite !length_app, Hev, Htip.
  destruct (classify_size_cases d)
    as [[Hd (t1 & t2 & t3 & Hb)] | [Hd (t1 & t2 & Hb)]];
    rewrite Hb; (split; [eexists; reflexivity |]);
    destruct (decide (d < 300)); try lra;
    destruct ocean; reflexivity.
Qed.

(** X6.  Whatever strings it is given, the brief is never empty: it has
    between 3 and 8 tips, and its last tip is the lead-time tip, fixed by
    the thresholds 10, 5 and 1 year (each inclusive); a lead time below
    1 year, negative ones included, ends the brief with the civil-protection
    tip. *)
Theorem brief_ends_with_lead_time_tip (size_class event_type : string)
    (lead_years : R) (ocean : bool) :
  let brief := mitigation_brief size_class event_type lead_years ocean in
  (3 <= length brief <= 8)%nat /\
  (10 <= lead_years ->
   last brief
   = Some "Lead time sufficient for kinetic impactor mission(s) after reconnaissance flyby.") /\
  (5 <= lead_years < 10 ->
   last brief
   = Some "Borderline lead time: single kinetic impactor may help if launched promptly.") /\
  (1 <= lead_years < 5 ->
   last brief
   = Some "Too late for slow-push/gravity tractor; consider civil protection and last-minute measures only.") /\
  (lead_years < 1 ->
   last brief
   = Some "No real time for orbital deflection; focus 100% on civil protection.").
Proof.
  intros brief. unfold brief, mitigation_brief. cbv zeta.
  destruct (space_ok_singleton lead_years) as [tip Htip].
  split.
  - rewrite !length_app, Htip.
    assert (Hbase : (length (default [] (mitigation_base !! size_class))
                     <= 3)%nat).
    { destruct (mitigation_base !! size_class) as [tips |] eqn:Hb;
        simpl; [| lia].
      pose proof (mitigation_base_sizes size_class tips Hb). simpl in *. lia. }
    assert (Hev : length (if decide (event_type = "airburst")
                          then airburst_tweaks else ground_tweaks) = 2%nat)
      by (destruct (decide _); reflexivity).
    rewrite Hev. destruct ocean; simpl; lia.
  - unfold space_ok. cbv zeta.
    assert (Hlt : forall b : R, 0 <= b ->
               (Rmax 0.0 lead_years >= b <-> lead_years >= b) \/ b = 0).
    { intros b Hb. destruct (Req_dec b 0) as [-> | Hnz]; [right; reflexivity |].
      left. unfold Rmax. destruct (Rle_dec _ _); lra. }
    assert (H10 : Rmax 0.0 lead_years >= 10 <-> lead_years >= 10)
      by (destruct (Hlt 10 ltac:(lra)); [assumption | lra]).
    assert (H5 : Rmax 0.0 lead_years >= 5 <-> lead_years >= 5)
      by (destruct (Hlt 5 ltac:(lra)); [assumption | lra]).
    assert (H1 : Rmax 0.0 lead_years >= 1 <-> lead_years >= 1)
      by (destruct (Hlt 1 ltac:(lra)); [assumption | lra]).
    repeat split; intros Hlead;
      repeat destruct (decide _); rewrite last_snoc;
      first [reflexivity | exfalso; lra].
Qed.

Lemma brief_ends_with_lead_time_tip_witness :
  last (mitigation_brief "50-140m" "ground" 7 false)
  = Some "Borderline lead time: single kinetic impactor may help if launched promptly.".
Proof.
  apply (brief_ends_with_lead_time_tip "50-140m" "ground" 7 false). lra.
Defined.

(** X7.  Fallbacks of the brief: a size class that is not one of the six
    table keys contributes no tips of its own, and every event type other
    than "airburst", whatever its spelling, gets the ground-impact tips. *)
Theorem brief_fallbacks (size_class event_type : string) (lead_years : R)
    (ocean : bool) :
  (mitigation_base !! size_class = None ->
   exists lead_tip : string,
     mitigation_brief size_class event_type lead_years ocean
     = (if decide (event_type = "airburst")
        then airburst_tweaks else ground_tweaks)
       ++ ocean_block ocean ++ [lead_tip]) /\
  (event_type <> "airburst" ->
   mitigation_brief size_class event_type lead_years ocean
   = mitigation_brief size_class "ground" lead_years ocean) /\
  (size_class <> "<10m" -> size_class <> "10-50m" ->
   size_class <> "50-140m" -> size_class <> "140-300m" ->
   size_class <> "300m-1km" -> size_class <> ">1km" ->
   mitigation_base !! size_class = None).
Proof.
  split; [| split].
  - intros Hnone.
    destruct (space_ok_singleton lead_years) as [tip Htip].
    exists tip. unfold mitigation_brief. cbv zeta.
    rewrite Hnone, Htip. simpl. rewrite <- app_assoc. reflexivity.
  - intros Hev. unfold mitigation_brief. cbv zeta.
    destruct (decide (event_type = "airburst")); [contradiction |].
    destruct (decide ("ground" = "airburst")); [discriminate |].
    reflexivity.
  - intros H1 H2 H3 H4 H5 H6. unfold mitigation_base.
    repeat (rewrite lookup_insert_ne by congruence).
    apply lookup_singleton_ne. congruence.
Qed.

Lemma brief_fallbacks_witness :
  mitigation_brief "10-50m" "Airburst" 2 true
  = mitigation_brief "10-50m" "ground" 2 true.
Proof.
  apply (brief_fallbacks "10-50m" "Airburst" 2 true). discriminate.
Defined.

(** * Further properties of the ring-map view *)

(** ** Kilometres to degrees *)

Lemma cos_85_degrees : cos (radians 85) < 0.1.
Proof.
  pose proof PI_bounds as [Hlo Hhi].
  replace (radians 85) with (PI / 2 - radians 5) by (unfold radians; lra).
  rewrite cos_shift.
  assert (H5 : 0 < radians 5) by (unfold radians; lra).
  pose proof (sin_lt_x (radians 5) H5).
  unfold radians in *. lra.
Qed.

(** X8.  [km_to_deg_lon] never divides by zero: for every distance and
    every latitude it returns, the cosine being floored at 0.1, a value
    between [km / 111.320] and [km / 11.132] in size, the same for
    latitudes [lat] and [-lat]; at the equator it is [km / 111.320] and
    from 85 degrees to the pole it is capped at [km / 11.132]. *)
Theorem km_to_deg_lon_capped (km lat_deg : R) :
  exists deg : R,
    km_to_deg_lon km lat_deg = Ok deg /\
    km_to_deg_lon km (- lat_deg) = Ok deg /\
    Rabs km / 111.320 <= Rabs deg <= Rabs km / 11.132 /\
    (lat_deg = 0 -> deg = km / 111.320) /\
    (85 <= Rabs lat_deg <= 90 -> deg = km / 11.132).
Proof.
  set (c := Rmax 0.1 (cos (radians lat_deg))).
  assert (Hc : 0.1 <= c <= 1).
  { unfold c. pose proof (COS_bound (radians lat_deg)) as [_ Hub].
    split; minmax_lra. }
  assert (Hrun : km_to_deg_lon km lat_deg = Ok (km / (111.320 * c))).
  { unfold km_to_deg_lon, py_div. cbv zeta. fold c.
    destruct (decide (111.320 * c = 0)); [lra | reflexivity]. }
  exists (km / (111.320 * c)).
  split; [exact Hrun |]. split; [| split; [| split]].
  - rewrite <- Hrun. unfold km_to_deg_lon. cbv zeta.
    replace (radians (- lat_deg)) with (- radians lat_deg)
      by (unfold radians; lra).
    rewrite cos_neg. reflexivity.
  - unfold Rdiv. rewrite Rabs_mult.
    rewrite (Rabs_right (/ (111.320 * c)))
      by (apply Rle_ge, Rlt_le, Rinv_0_lt_compat; lra).
    pose proof (Rabs_pos km) as Hkm.
    assert (Hinv : / 111.320 <= / (111.320 * c) <= / 11.132).
    { split; apply Rinv_le_contravar; lra. }
    split; apply Rmult_le_compat_l; lra.
  - intros ->. unfold c.
    replace (radians 0) with 0 by (unfold radians; lra).
    rewrite cos_0. replace (Rmax 0.1 1) with 1 by minmax_lra.
    f_equal. lra.
  - intros [Hlo Hhi].
    assert (Hcos : cos (radians lat_deg) < 0.1).
    { pose proof PI_bounds as [Hp1 Hp2].
      assert (Heven : cos (radians lat_deg) = cos (radians (Rabs lat_deg))).
      { unfold Rabs. destruct (Rcase_abs lat_deg); [| reflexivity].
        replace (radians (- lat_deg)) with (- radians lat_deg)
          by (unfold radians; lra).
        rewrite cos_neg. reflexivity. }
      rewrite Heven.
      apply Rle_lt_trans with (cos (radians 85)); [| apply cos_85_degrees].
      apply cos_decr_1; unfold radians; nra. }
    unfold c. replace (Rmax 0.1 (cos (radians lat_deg))) with 0.1
      by minmax_lra.
    f_equal. lra.
Qed.

(** ** More on the rounder *)

Lemma nice_step_in_bracket (x : R) (z : Z) :
  powerRZ 10 z <= x < 10 * powerRZ 10 z ->
  (x < 1.5 * powerRZ 10 z -> _nice_step x = Ok (1 * powerRZ 10 z)) /\
  (1.5 * powerRZ 10 z <= x < 3.5 * powerRZ 10 z ->
   _nice_step x = Ok (2 * powerRZ 10 z)) /\
  (3.5 * powerRZ 10 z <= x < 7.5 * powerRZ 10 z ->
   _nice_step x = Ok (5 * powerRZ 10 z)) /\
  (7.5 * powerRZ 10 z <= x -> _nice_step x = Ok (10 * powerRZ 10 z)).
Proof.
  intros [Hlo Hhi].
  pose proof (powerRZ_lt 10 z ltac:(lra)) as Hp.
  assert (Hx : 0 < x) by lra.
  assert (He : Zfloor (ln x / ln 10) = z).
  { apply log10_bracket_unique.
    rewrite powerRZ_add, powerRZ_1 by lra. lra. }
  destruct (nice_step_positive x Hx) as [Hs _].
  rewrite He in Hs. rewrite Hs.
  assert (Hfrac : x / powerRZ 10 z * powerRZ 10 z = x) by (field; lra).
  repeat split; intros Hcase; f_equal;
    repeat destruct (decide _); nra.
Qed.

Lemma nice_step_ratio (x : R) :
  0 < x ->
  exists s : R, _nice_step x = Ok s /\ 4 / 7 * x < s <= 10 / 7 * x.
Proof.
  intros Hx.
  destruct (log10_bracket x Hx) as [Hlo Hhi].
  set (z := Zfloor (ln x / ln 10)) in *.
  rewrite powerRZ_add, powerRZ_1 in Hhi by lra.
  pose proof (powerRZ_lt 10 z ltac:(lra)) as Hp.
  destruct (nice_step_in_bracket x z ltac:(lra)) as (H1 & H2 & H5 & H10).
  destruct (Rlt_dec x (1.5 * powerRZ 10 z));
    [| destruct (Rlt_dec x (3.5 * powerRZ 10 z));
       [| destruct (Rlt_dec x (7.5 * powerRZ 10 z))]].
  - eexists. split; [apply H1; lra | lra].
  - eexists. split; [apply H2; lra | lra].
  - eexists. split; [apply H5; lra | lra].
  - eexists. split; [apply H10; lra | lra].
Qed.

(** X9.  The rounder stays close to its argument: for every [x] from
    1e-300 to 1e300 the result lies in [(4/7 x, 10/7 x]], the underflow of
    [10 ** exp] taken into account; for [x <= 0] it is 1.0. *)
Theorem nice_step_within_factor :
  (forall x : R,
      1e-300 <= x <= 1e300 ->
      exists s : R,
        _nice_step x = Ok s /\ Underflow._nice_step x = Ok s /\
        4 / 7 * x < s <= 10 / 7 * x) /\
  (forall x : R,
      x <= 0 -> _nice_step x = Ok 1 /\ Underflow._nice_step x = Ok 1).
Proof.
  split.
  - intros x Hx.
    destruct (nice_step_ratio x ltac:(lra)) as (s & Hs & Hb).
    exists s. split; [exact Hs |].
    split; [rewrite nice_step_no_underflow by exact Hx; exact Hs | exact Hb].
  - intros x Hx. unfold Underflow._nice_step, _nice_step.
    destruct (decide (x <= 0)); [| contradiction].
    cbn. split; f_equal; lra.
Qed.

Lemma nice_step_within_factor_witness :
  exists s : R,
    _nice_step 0.44 = Ok s /\ Underflow._nice_step 0.44 = Ok s /\
    4 / 7 * 0.44 < s <= 10 / 7 * 0.44.
Proof.
  apply (proj1 nice_step_within_factor 0.44). lra.
Defined.

(** X11.  The grid and the scale bar keep their size on screen at every
    zoom and for every radius set: on a view in range with a viewport of
    positive sides, [redraw] completes; the grid lines form a lattice
    around the panned centre whose pitch is more than 480/7 (about 68.6)
    and at most 1200/7 (about 171.4) pixels: a vertical (horizontal) line
    is drawn at every whole multiple of the pitch within half the width
    (height) of the centre, and every line drawn with the grid pen is at a
    whole multiple of the pitch from the centre; the scale bar, drawn from
    x = 20 at height [H - 24], is more than 600/7 (about 85.7) and at most
    1500/7 (about 214.3) pixels long. *)
Theorem grid_and_scale_bar_pixel_size (v : view) :
  (0 < Z.min (width v) (height v))%Z -> in_range v ->
  exists (px_per_km step_km km_len : R) (fuel0 : nat) (v' : view),
    redraw_px_per_km v = Ok px_per_km /\
    redraw_step_km (1 / px_per_km) = Ok step_km /\
    _nice_step (150 * (1 / px_per_km)) = Ok km_len /\
    (forall fuel : nat, (fuel0 <= fuel)%nat -> redraw fuel v = Ok v') /\
    let pitch := step_km * px_per_km in
    let cx := IZR (width v) / 2 + pan_dx v in
    let cy := IZR (height v) / 2 + pan_dy v in
    480 / 7 < pitch <= 1200 / 7 /\
    (forall k : Z,
        - (IZR (width v) / 2) <= IZR k * pitch <= IZR (width v) / 2 ->
        In (Line (cx + IZR k * pitch) 0 (cx + IZR k * pitch)
                 (IZR (height v)) (Pen "#222833" 1))
           (scene v')) /\
    (forall k : Z,
        - (IZR (height v) / 2) <= IZR k * pitch <= IZR (height v) / 2 ->
        In (Line 0 (cy - IZR k * pitch) (IZR (width v)) (cy - IZR k * pitch)
                 (Pen "#222833" 1))
           (scene v')) /\
    (forall x1 y1 x2 y2 : R,
        In (Line x1 y1 x2 y2 (Pen "#222833" 1)) (scene v') ->
        exists k : Z,
          (x1 = cx + IZR k * pitch /\ x2 = x1 /\
           y1 = 0 /\ y2 = IZR (height v)) \/
          (y1 = cy - IZR k * pitch /\ y2 = y1 /\
           x1 = 0 /\ x2 = IZR (width v))) /\
    600 / 7 < km_len * px_per_km <= 1500 / 7 /\
    In (Line 20 (IZR (height v - 24)) (20 + km_len * px_per_km)
             (IZR (height v - 24)) (Pen "#A9B1BD" 2))
       (scene v').
Proof.
  intros Hmin Hr.
  destruct (redraw_in_range v Hmin Hr)
    as (Hppk & Hpos & step & len & fuel0 & v' & vl & hl & Hstep & Hstep_pos
        & Hlen & _ & Hconv & _ & Hvl & Hhl & Hscene).
  set (ppk := IZR (Z.min (width v) (height v)) / 2
              / (Rmax (redraw_Rmax_km v) 1e-9 * 1.10) * zoom v) in *.
  assert (Hinv : 0 < 1 / ppk) by (apply Rdiv_lt_0_compat; lra).
  assert (Hone : 1 / ppk * ppk = 1) by (field; lra).
  destruct (nice_step_ratio (120 * (1 / ppk)) ltac:(lra))
    as (s1 & Hs1 & Hb1).
  destruct (nice_step_ratio (150 * (1 / ppk)) ltac:(lra))
    as (s2 & Hs2 & Hb2).
  rewrite Hstep in Hs1. injection Hs1 as <-.
  rewrite Hlen in Hs2. injection Hs2 as <-.
  exists ppk, step, len, fuel0, v'.
  split; [exact Hppk |].
  split.
  { unfold redraw_step_km.
    replace (120.0 * (1 / ppk)) with (120 * (1 / ppk)) by lra. exact Hstep. }
  split; [exact Hlen |]. split; [exact Hconv |].
  intros pitch cx cy.
  fold cx cy in Hvl, Hhl, Hscene.
  split; [unfold pitch; split; nra |].
  split.
  { intros k Hk. rewrite Hscene. apply in_or_app. left.
    apply (vertical_lines_multiples fuel0 _ _ _ _ _ vl Hstep_pos Hvl k).
    - apply (within_half_km (IZR k * step) (IZR (width v) / 2) ppk Hpos).
      unfold pitch in Hk. lra.
    - unfold pitch. lra. }
  split.
  { intros k Hk. rewrite Hscene. apply in_or_app. right.
    apply in_or_app. left.
    apply (horizontal_lines_multiples fuel0 _ _ _ _ _ hl Hstep_pos Hhl k).
    - apply (within_half_km (IZR k * step) (IZR (height v) / 2) ppk Hpos).
      unfold pitch in Hk. lra.
    - unfold pitch. lra. }
  split.
  { intros x1 y1 x2 y2 Hin. rewrite Hscene in Hin.
    apply grid_pen_lines in Hin as [Hin | Hin].
    - destruct (vertical_lines_only fuel0 _ _ _ _ _ _ _ Hvl _ _ _ _ _ Hin)
        as (i & _ & Hx1 & Hx2 & Hy1 & Hy2).
      rewrite offset_is_multiple, Rmult_assoc in Hx1.
      eexists. left. split; [exact Hx1 |]. auto.
    - destruct (horizontal_lines_only fuel0 _ _ _ _ _ _ _ Hhl _ _ _ _ _ Hin)
        as (i & _ & Hy1 & Hy2 & Hx1 & Hx2).
      rewrite offset_is_multiple, Rmult_assoc in Hy1.
      eexists. right. split; [exact Hy1 |]. auto. }
  split; [split; nra |].
  rewrite Hscene, (app_assoc vl hl).
  exact (proj1 (scale_bar_in_scene len ppk (height v) (vl ++ hl) _)).
Qed.

Lemma grid_and_scale_bar_pixel_size_witness :
  exists px_per_km step_km : R,
    redraw_px_per_km (init 800 600) = Ok px_per_km /\
    redraw_step_km (1 / px_per_km) = Ok step_km /\
    480 / 7 < step_km * px_per_km <= 1200 / 7.
Proof.
  destruct (grid_and_scale_bar_pixel_size (init 800 600))
    as (ppk & step & len & fuel0 & v' & Hppk & Hstep & _ & _ & Hb & _).
  - simpl. lia.
  - unfold in_range. simpl. repeat split; try lia; try lra.
    intros e He. discriminate.
  - exists ppk, step. repeat split; first [assumption | apply Hb].
Defined.

(** ** Redrawing *)

(** X13.  The early return and what it protects: with a viewport of zero
    or negative width or height, [redraw] (and so a resize to such a size)
    clears the scene and returns before any division, whatever the state
    and with no fuel at all; with a positive viewport and a zoom of zero
    the reciprocal of the scale raises [ZeroDivisionError]. *)
Theorem redraw_empty_viewport :
  (forall (fuel : nat) (v : view) (W H : Z),
      (W <= 0)%Z \/ (H <= 0)%Z ->
      resizeEvent fuel W H v = Ok (set_scene [] (set_size W H v))) /\
  (forall (fuel : nat) (v : view),
      (0 < width v)%Z -> (0 < height v)%Z -> zoom v = 0 ->
      redraw fuel v = Raise ZeroDivisionError).
Proof.
  split.
  - intros fuel v W H Hvp. unfold resizeEvent.
    apply redraw_no_viewport. exact Hvp.
  - intros fuel v HW HH Hz. unfold redraw. cbv zeta.
    change (width (set_scene [] v)) with (width v).
    change (height (set_scene [] v)) with (height v).
    change (redraw_px_per_km (set_scene [] v)) with (redraw_px_per_km v).
    rewrite (bool_decide_eq_false_2 (width v ≤ 0)%Z) by lia.
    rewrite (bool_decide_eq_false_2 (height v ≤ 0)%Z) by lia.
    cbn [orb].
    rewrite redraw_px_per_km_ok, Hz, Rmult_0_r.
    cbn [mbind result_bind]. unfold py_div.
    destruct (decide (0 = 0)); [reflexivity | contradiction].
Qed.

Lemma redraw_empty_viewport_witness :
  resizeEvent 0 0 600 (init 800 600)
  = Ok (set_scene [] (set_size 0 600 (init 800 600))).
Proof.
  apply (proj1 redraw_empty_viewport 0%nat (init 800 600) 0%Z 600%Z).
  left. lia.
Defined.

(** ** Runs of events *)

Lemma handle_mono (fuel fuel' : nat) (ev : event) (v v' : view) :
  (fuel <= fuel')%nat ->
  handle fuel ev v = Ok v' -> handle fuel' ev v = Ok v'.
Proof.
  intros Hle. destruct ev; simpl; try (intros Hrun; exact Hrun).
  - apply redraw_mono. exact Hle.
  - apply redraw_mono. exact Hle.
  - apply wheelEvent_mono. exact Hle.
  - unfold mouseMoveEvent. destruct (dragging v); [| auto].
    apply redraw_mono. exact Hle.
  - apply redraw_mono. exact Hle.
Qed.

Lemma in_range_same_state (v v' : view) :
  same_state v v' -> in_range v -> in_range v'.
Proof.
  intros (He & _ & _ & Hz & _ & _ & _ & _ & Hw & Hh) (HW & HH & Hzoom & Hr).
  unfold in_range. rewrite He, Hz, Hw, Hh. auto.
Qed.

Lemma redraw_keeps_range (v : view) :
  in_range v ->
  exists (fuel0 : nat) (v' : view),
    (forall fuel : nat, (fuel0 <= fuel)%nat -> redraw fuel v = Ok v') /\
    in_range v'.
Proof.
  intros Hr.
  assert (Hz : 0 < zoom v) by (destruct Hr as (_ & _ & Hz & _); lra).
  destruct (redraw_converges v Hz) as (fuel0 & v' & Hconv & Hsame).
  exists fuel0, v'. split; [exact Hconv |].
  exact (in_range_same_state v v' Hsame Hr).
Qed.

(** Every handler completes on a view in range, for an event in range, and
    leaves the view in range. *)
Lemma handle_in_range (ev : event) (v : view) :
  in_range v -> event_in_range ev ->
  exists (fuel0 : nat) (v' : view),
    (forall fuel : nat, (fuel0 <= fuel)%nat -> handle fuel ev v = Ok v') /\
    in_range v'.
Proof.
  intros Hr Hev.
  pose proof Hr as (HW & HH & Hz & Hradii).
  destruct ev as [lat0 lon0 e | W H | dy | left_button pos | pos
                 | left_button |]; simpl in *.
  - apply redraw_keeps_range.
    split; [exact HW |]. split; [exact HH |]. split; [simpl; lra |].
    simpl. intros e' He'. injection He' as <-. exact Hev.
  - apply redraw_keeps_range.
    split; [simpl; tauto |]. split; [simpl; tauto |].
    split; [exact Hz | exact Hradii].
  - unfold wheelEvent. destruct (decide (dy = 0)%Z).
    + exists 0%nat, v. split; [intros; reflexivity | exact Hr].
    + apply redraw_keeps_range.
      split; [exact HW |]. split; [exact HH |].
      split; [simpl; minmax_lra | exact Hradii].
  - exists 0%nat, (mousePressEvent left_button pos v).
    split; [intros; reflexivity |].
    unfold mousePressEvent. destruct left_button; exact Hr.
  - unfold mouseMoveEvent. destruct (dragging v).
    + apply redraw_keeps_range.
      split; [exact HW |]. split; [exact HH |].
      split; [exact Hz | exact Hradii].
    + exists 0%nat, v. split; [intros; reflexivity | exact Hr].
  - exists 0%nat, (mouseReleaseEvent left_button v).
    split; [intros; reflexivity |].
    unfold mouseReleaseEvent. destruct left_button; exact Hr.
  - apply redraw_keeps_range.
    split; [exact HW |]. split; [exact HH |].
    split; [simpl; lra | exact Hradii].
Qed.

Lemma run_events_in_range (evs : list event) :
  forall v : view,
    in_range v -> Forall event_in_range evs ->
    exists (fuel0 : nat) (v' : view),
      (forall fuel : nat,
          (fuel0 <= fuel)%nat -> run_events fuel evs v = Ok v') /\
      in_range v'.
Proof.
  induction evs as [| ev evs IH]; intros v Hr Hevs.
  - exists 0%nat, v. split; [intros; reflexivity | exact Hr].
  - apply Forall_cons_1 in Hevs as [Hev Hevs].
    destruct (handle_in_range ev v Hr Hev) as (f1 & v1 & Hrun1 & Hr1).
    destruct (IH v1 Hr1 Hevs) as (f2 & v' & Hrun2 & Hr').
    exists (Nat.max f1 f2), v'. split; [| exact Hr'].
    intros fuel Hfuel. simpl.
    rewrite (Hrun1 fuel ltac:(lia)). cbn [mbind result_bind].
    apply Hrun2. lia.
Qed.

(** X15.  The widget does not fail within its range: from its initial
    state, on any viewport whose sides are below 2^24 (empty ones
    included), every finite run of events (data pushes of radii up to
    1e100 km in absolute value, resizes to sides below 2^24, wheel steps,
    presses, moves, releases, double clicks, in any order and at any
    position) is handled without an exception, and the view stays in range
    (zoom within [[0.2, 20]], radii and sides as bounded) throughout. *)
Theorem events_never_raise (W H : Z) (evs : list event) :
  (W < 2 ^ 24)%Z -> (H < 2 ^ 24)%Z -> Forall event_in_range evs ->
  exists (fuel0 : nat) (v' : view),
    (forall fuel : nat,
        (fuel0 <= fuel)%nat -> run_events fuel evs (init W H) = Ok v') /\
    in_range v'.
Proof.
  intros HW HH Hevs.
  apply run_events_in_range; [| exact Hevs].
  split; [exact HW |]. split; [exact HH |]. split; [simpl; lra |].
  intros e He. discriminate.
Qed.

Lemma events_never_raise_witness :
  exists (fuel0 : nat) (v' : view),
    (forall fuel : nat,
        (fuel0 <= fuel)%nat ->
        run_events fuel
          [ SetData 0 0 {[ "light_thermal_km" := 4.5 ]}; Wheel 120;
            MousePress true (10, 10); MouseMove (30, 5); Resize 0 0;
            MouseDoubleClick ]
          (init 800 600) = Ok v') /\
    in_range v'.
Proof.
  apply (events_never_raise 800 600); [lia | lia |].
  constructor; [| repeat constructor; simpl; lia].
  intros k _. simpl.
  destruct (decide (k = "light_thermal_km")) as [-> | Hne].
  - rewrite lookup_singleton. simpl. rewrite Rabs_pos_eq; lra.
  - rewrite lookup_singleton_ne by congruence. simpl.
    rewrite Rabs_R0. lra.
Defined.

(** ** Dragging *)

Lemma last_nonempty_default {A : Type} (l : list A) (a d d' : A) :
  List.last (a :: l) d = List.last (a :: l) d'.
Proof.
  revert a. induction l as [| b l IH]; intros a; [reflexivity |].
  change (List.last (b :: l) d = List.last (b :: l) d'). apply IH.
Qed.

Lemma drag_moves (qs : list (R * R)) :
  forall v : view,
    0 < zoom v -> dragging v = true ->
    exists (fuel0 : nat) (v' : view),
      (forall fuel : nat,
          (fuel0 <= fuel)%nat ->
          run_events fuel (map MouseMove qs) v = Ok v') /\
      last_pos v' = List.last qs (last_pos v) /\
      pan_dx v' - fst (last_pos v') = pan_dx v - fst (last_pos v) /\
      pan_dy v' - snd (last_pos v') = pan_dy v - snd (last_pos v) /\
      dragging v' = true /\ zoom v' = zoom v /\ effects v' = effects v.
Proof.
  induction qs as [| q qs IH]; intros v Hz Hdrag.
  - exists 0%nat, v. split; [intros; reflexivity |].
    repeat split; try reflexivity. exact Hdrag.
  - set (v1 := set_drag true q
                 (set_pan (pan_dx v + (fst q - fst (last_pos v)))
                          (pan_dy v + (snd q - snd (last_pos v))) v)).
    destruct (redraw_converges v1 Hz) as (f1 & v2 & Hconv & Hsame).
    destruct Hsame as (He & _ & _ & Hzoom & Hdx & Hdy & Hdr & Hlp & _).
    simpl in He, Hzoom, Hdx, Hdy, Hdr, Hlp.
    destruct (IH v2 ltac:(lra) Hdr)
      as (f2 & v' & Hrun & Hlast & Hx & Hy & Hdrag' & Hzoom' & He').
    exists (Nat.max f1 f2), v'. split.
    + intros fuel Hfuel. simpl. unfold mouseMoveEvent. rewrite Hdrag.
      simpl fst. simpl snd. fold v1.
      rewrite (Hconv fuel ltac:(lia)). cbn [mbind result_bind].
      apply Hrun. lia.
    + rewrite Hlp in Hlast, Hx, Hy. simpl fst in *. simpl snd in *.
      split.
      { rewrite Hlast. destruct qs as [| q' qs']; [reflexivity |].
        change (List.last (q :: q' :: qs') (last_pos v))
          with (List.last (q' :: qs') (last_pos v)).
        apply last_nonempty_default. }
      repeat split; try assumption; try lra; congruence.
Qed.

(** X16.  Dragging is path independent: after a left-button press at [p]
    and any number of moves, the pan offset has grown by the position of
    the last move minus [p], whatever the moves in between; zoom and
    result set are untouched.  A move while no drag is active, and a press
    of another button, change nothing. *)
Theorem drag_is_path_independent :
  (forall (v : view) (p : R * R) (qs : list (R * R)),
      0 < zoom v ->
      exists (fuel0 : nat) (v' : view),
        (forall fuel : nat,
            (fuel0 <= fuel)%nat ->
            run_events fuel (MousePress true p :: map MouseMove qs) v
            = Ok v') /\
        pan_dx v' = pan_dx v + (fst (List.last qs p) - fst p) /\
        pan_dy v' = pan_dy v + (snd (List.last qs p) - snd p) /\
        zoom v' = zoom v /\ effects v' = effects v) /\
  (forall (fuel : nat) (v : view) (q : R * R),
      dragging v = false -> handle fuel (MouseMove q) v = Ok v) /\
  (forall (fuel : nat) (v : view) (p : R * R),
      handle fuel (MousePress false p) v = Ok v).
Proof.
  split; [| split].
  - intros v p qs Hz.
    destruct (drag_moves qs (set_drag true p v) Hz eq_refl)
      as (fuel0 & v' & Hrun & Hlast & Hx & Hy & _ & Hzoom & He).
    simpl in Hlast, Hx, Hy, Hzoom, He.
    exists fuel0, v'. split.
    + intros fuel Hfuel. simpl. exact (Hrun fuel Hfuel).
    + rewrite Hlast in Hx, Hy.
      repeat split; try assumption; lra.
  - intros fuel v q Hdrag. simpl. unfold mouseMoveEvent.
    rewrite Hdrag. reflexivity.
  - intros fuel v p. reflexivity.
Qed.

Lemma drag_is_path_independent_witness :
  exists (fuel0 : nat) (v' : view),
    (forall fuel : nat,
        (fuel0 <= fuel)%nat ->
        run_events fuel
          (MousePress true (10, 10)
           :: map MouseMove [(50, 5); (7, 90); (310, 10)])
          (init 600 600)
        = Ok v') /\
    pan_dx v' = pan_dx (init 600 600) + (310 - 10).
Proof.
  destruct (proj1 drag_is_path_independent (init 600 600) (10, 10)
              [(50, 5); (7, 90); (310, 10)])
    as (fuel0 & v' & Hrun & Hx & _).
  - simpl. lra.
  - exists fuel0, v'. split; [exact Hrun | exact Hx].
Defined.

(** ** The rings *)

Lemma ring_ellipse (px_per_km cx cy : R) (radius_km : option R)
    (color_hex : string) (alpha_fill : Z) (lbl : option string)
    (x y w h : R) (p : pen) (b : brush) :
  In (Ellipse x y w h p b)
     (ring px_per_km cx cy radius_km color_hex alpha_fill lbl) ->
  exists r : R,
    radius_km = Some r /\ 0 < r /\
    w = 2 * (r * px_per_km) /\ h = w /\
    x = cx - r * px_per_km /\ y = cy - r * px_per_km.
Proof.
  unfold ring. destruct radius_km as [r |]; [| intros []].
  destruct (bool_decide_reflect (r = 0)); [intros [] |].
  destruct (bool_decide_reflect (r <= 0)); [intros [] |].
  cbn [orb]. intros [Heq | Hin].
  - injection Heq as <- <- <- <- _ _.
    exists r. repeat split; try reflexivity. lra.
  - destruct lbl as [name |]; [| destruct Hin].
    destruct (decide (name = "")); [destruct Hin |].
    destruct Hin as [Heq | []]. discriminate.
Qed.

Lemma ring_skipped (px_per_km cx cy : R) (radius_km : option R)
    (color_hex : string) (alpha_fill : Z) (lbl : option string) :
  (forall r : R, radius_km = Some r -> r <= 0) ->
  ring px_per_km cx cy radius_km color_hex alpha_fill lbl = [].
Proof.
  intros Hr. unfold ring. destruct radius_km as [r |]; [| reflexivity].
  pose proof (Hr r eq_refl).
  destruct (bool_decide_reflect (r = 0)); [reflexivity |].
  destruct (bool_decide_reflect (r <= 0)); [reflexivity | contradiction].
Qed.

(** X17.  Whatever the result set holds, every ring [redraw] draws is a
    circle centred on the (panned) centre, of pixel radius
    [radius_km * px_per_km], for one of the five radius keys whose value is
    strictly positive; a missing radius, a zero and a negative one draw
    nothing, and neither does an absent or empty result set. *)
Theorem rings_are_centred_circles (v : view) (px_per_km cx cy : R) :
  (forall (x y w h : R) (p : pen) (b : brush),
      In (Ellipse x y w h p b) (rings v px_per_km cx cy) ->
      exists (e : gmap string R) (k : string) (r : R),
        effects v = Some e /\ In k keys /\ e !! k = Some r /\ 0 < r /\
        w = 2 * (r * px_per_km) /\ h = w /\
        x + w / 2 = cx /\ y + h / 2 = cy) /\
  (truthy (effects v) = false -> rings v px_per_km cx cy = []) /\
  (forall e : gmap string R,
      effects v = Some e ->
      (forall (k : string) (r : R), In k keys -> e !! k = Some r -> r <= 0) ->
      rings v px_per_km cx cy = []).
Proof.
  split; [| split].
  - intros x y w h p b Hin. unfold rings in Hin.
    destruct (effects v) as [e |] eqn:He; [| destruct Hin].
    destruct (truthy (Some e)); [| destruct Hin].
    assert (Hone : forall (k : string) (c : string) (a : Z) (l : option string),
               In k keys ->
               In (Ellipse x y w h p b) (ring px_per_km cx cy (e !! k) c a l) ->
               exists (e0 : gmap string R) (k0 : string) (r : R),
                 Some e = Some e0 /\ In k0 keys /\ e0 !! k0 = Some r /\
                 0 < r /\ w = 2 * (r * px_per_km) /\ h = w /\
                 x + w / 2 = cx /\ y + h / 2 = cy).
    { intros k c a l Hk Hring.
      destruct (ring_ellipse _ _ _ _ _ _ _ _ _ _ _ _ _ Hring)
        as (r & Hr & Hpos & Hw & Hh & Hx & Hy).
      exists e, k, r. repeat split; try assumption; lra. }
    repeat (apply in_app_or in Hin as [Hin | Hin];
            [eapply Hone; [| exact Hin]; simpl; tauto |]).
    eapply Hone; [| exact Hin]. simpl. tauto.
  - intros Hf. unfold rings. rewrite Hf. destruct (effects v); reflexivity.
  - intros e He Hnonpos. unfold rings. rewrite He.
    destruct (truthy (Some e)); [| reflexivity].
    rewrite !ring_skipped
      by (intros r Hr; eapply Hnonpos; [| exact Hr]; simpl; tauto).
    reflexivity.
Qed.

(** ** From the model to the map *)

Lemma model_Rmax_km (v : view) (kinetic_mt angle : R) (out : gmap string R) :
  impact_effects kinetic_mt angle = Ok out ->
  effects v = Some out ->
  redraw_Rmax_km v
  = 4.5 * Rpower (surface_yield_mt kinetic_mt angle) (1 / 3).
Proof.
  intros Hout He.
  destruct (impact_effects_ok kinetic_mt angle) as (out' & Hout' & _ & Hr).
  rewrite Hout in Hout'. injection Hout' as <-.
  set (c := Rpower (surface_yield_mt kinetic_mt angle) (1 / 3)) in *.
  assert (Hc : 0 < c) by apply Rpower_third_pos.
  assert (Hne : out <> ∅).
  { intros ->. pose proof (Hr SevereBlast) as H0.
    rewrite lookup_empty in H0. discriminate. }
  rewrite (Rmax_km_unfold v out He Hne).
  unfold keys. simpl map.
  rewrite (Hr LightBlast : out !! "light_blast_km" = _).
  rewrite (Hr ModerateBlast : out !! "moderate_blast_km" = _).
  rewrite (Hr SevereBlast : out !! "severe_blast_km" = _).
  rewrite (Hr LightThermal : out !! "light_thermal_km" = _).
  rewrite (Hr SevereThermal : out !! "severe_thermal_km" = _).
  simpl default. simpl radius_k.
  rewrite !filter_cons_True by nra.
  rewrite filter_nil. simpl.
  unfold Rmax; repeat destruct (Rle_dec _ _); nra.
Qed.

(** X18.  The auto-fit keeps every ring of the model inside the viewport:
    when the view shows a result set returned by [impact_effects],
    [Rmax_km] is the light-thermal radius, and at zoom [z] every ring has a
    pixel radius of at most [z * (min(W, H) / 2) / 1.10], the light-thermal
    ring exactly that; so at zoom 1 and zero pan every ring lies within the
    viewport with a 10 per cent margin. *)
Theorem model_rings_fit_viewport (v : view) (kinetic_mt angle : R)
    (out : gmap string R) :
  impact_effects kinetic_mt angle = Ok out ->
  effects v = Some out ->
  (0 < width v)%Z -> (0 < height v)%Z -> 0 < zoom v ->
  out !! "light_thermal_km" = Some (redraw_Rmax_km v) /\
  exists px_per_km : R,
    redraw_px_per_km v = Ok px_per_km /\
    (forall (kind : radius_kind) (r : R),
        out !! radius_key kind = Some r ->
        0 < r * px_per_km
        <= zoom v * (IZR (Z.min (width v) (height v)) / 2) / 1.10) /\
    redraw_Rmax_km v * px_per_km
    = zoom v * (IZR (Z.min (width v) (height v)) / 2) / 1.10.
Proof.
  intros Hout He HW HH Hz.
  pose proof (model_Rmax_km v kinetic_mt angle out Hout He) as HR.
  destruct (impact_effects_ok kinetic_mt angle) as (out' & Hout' & _ & Hr).
  rewrite Hout in Hout'. injection Hout' as <-.
  set (c := Rpower (surface_yield_mt kinetic_mt angle) (1 / 3)) in *.
  assert (Hc : 0 < c) by apply Rpower_third_pos.
  set (m := IZR (Z.min (width v) (height v)) / 2).
  assert (Hm : 0 < m).
  { unfold m. assert (0 < IZR (Z.min (width v) (height v)))
      by (apply IZR_lt; lia). lra. }
  split; [rewrite HR; exact (Hr LightThermal) |].
  eexists. split; [apply redraw_px_per_km_ok |].
  fold m. rewrite HR. unfold SAFE_MARGIN.
  assert (Hc3 : 0.001 <= c).
  { rewrite <- (Rpower_cube_third 0.001) by lra.
    apply Rpower_third_le; [simpl; lra |].
    pose proof (surface_yield_mt_floor kinetic_mt angle). simpl. lra. }
  replace (Rmax (4.5 * c) 1e-9) with (4.5 * c) by minmax_lra.
  assert (Hfit : 4.5 * c * (m / (4.5 * c * 1.10) * zoom v)
                 = zoom v * m / 1.10) by (field; lra).
  split; [| exact Hfit].
  intros kind r Hkind. rewrite (Hr kind) in Hkind. injection Hkind as <-.
  assert (Hppk : 0 < m / (4.5 * c * 1.10) * zoom v).
  { apply Rmult_lt_0_compat; [| exact Hz].
    apply Rdiv_lt_0_compat; lra. }
  assert (Hk : 0 < radius_k kind <= 4.5) by (destruct kind; simpl; lra).
  split; [apply Rmult_lt_0_compat; [nra | exact Hppk] |].
  rewrite <- Hfit.
  set (P := m / (4.5 * c * 1.10) * zoom v) in *.
  assert (HcP : 0 < c * P) by (apply Rmult_lt_0_compat; assumption).
  replace (radius_k kind * c * P) with (radius_k kind * (c * P)) by ring.
  replace (4.5 * c * P) with (4.5 * (c * P)) by ring.
  apply Rmult_le_compat_r; lra.
Qed.

Lemma model_rings_fit_viewport_witness :
  exists out : gmap string R,
    impact_effects 9 45 = Ok out /\
    out !! "light_thermal_km"
    = Some (redraw_Rmax_km
              {| effects := Some out; lat := 0; lon := 0; zoom := 1;
                 pan_dx := 0; pan_dy := 0; dragging := false;
                 last_pos := (0, 0); scene := []; width := 800;
                 height := 600 |}).
Proof.
  destruct (impact_effects_ok 9 45) as (out & Hout & _).
  exists out. split; [exact Hout |].
  apply (model_rings_fit_viewport _ 9 45 out Hout);
    simpl; first [reflexivity | lia | lra].
Defined.
